(** * Kokoros: the text-to-speech pipeline of [src/kokoros/src/tts/koko.rs]
    and the instance policy of [src/koko/src/main.rs].

    Shallow embedding.  Rust [&str]/[String] are Stdlib [string]s over
    ASCII (the classifier [char::is_whitespace] is restricted to its ASCII
    members).  Audio samples and style values ([f32]) are rationals [Q];
    the external engines (espeak phonemizer, the repository tokenizer, the
    ONNX inference call, [str::parse::<f32>]) are section variables, so
    every theorem about them holds for any behaviour of those engines. *)

From Stdlib Require Import QArith Lia Ascii String DecimalString DecimalNat.
From stdpp Require Import base list gmap strings.

(** ** Rust's [Result] *)

Inductive result (A E : Type) : Type :=
| Ok (a : A)
| Err (e : E).
Arguments Ok {A E} a.
Arguments Err {A E} e.

Definition unwrap_or_default {E} (r : result (list string) E) : list string :=
  match r with Ok v => v | Err _ => [] end.

(** ** [str] helpers *)

Module Str.

(** [char::is_whitespace] on ASCII: U+0009..U+000D and U+0020. *)
Definition is_whitespace (c : ascii) : bool :=
  let n := Ascii.nat_of_ascii c in (Nat.leb 9 n && Nat.leb n 13) || Nat.eqb n 32.

(** [str::split] with a char predicate: pieces between separators,
    empty pieces included; [""] splits into [[""]]. *)
Fixpoint split (p : ascii -> bool) (s : string) : list string :=
  match s with
  | EmptyString => [EmptyString]
  | String c s' =>
      if p c then EmptyString :: split p s'
      else match split p s' with
           | h :: t => String c h :: t
           | [] => [String c EmptyString]
           end
  end.

Definition is_empty (s : string) : bool :=
  match s with EmptyString => true | _ => false end.

(** [str::split_whitespace] = [split(char::is_whitespace)] without the
    empty pieces. *)
Definition split_whitespace (s : string) : list string :=
  List.filter (fun w => negb (is_empty w)) (split is_whitespace s).

Fixpoint trim_start (s : string) : string :=
  match s with
  | EmptyString => EmptyString
  | String c s' => if is_whitespace c then trim_start s' else s
  end.

Definition rev_str (s : string) : string :=
  string_of_list_ascii (rev (list_ascii_of_string s)).

Definition trim_end (s : string) : string := rev_str (trim_start (rev_str s)).

Definition trim (s : string) : string := trim_end (trim_start s).

(** [s.join("")] *)
Definition join (l : list string) : string := String.concat "" l.

(** [format!("{} {}", a, b)] *)
Definition space_join (a b : string) : string := String.append a (String " " b).

(** [format!("{}.", s)] *)
Definition with_period (s : string) : string := String.append s ".".

Definition contains (c : ascii) (s : string) : bool :=
  existsb (fun d => if ascii_dec c d then true else false) (list_ascii_of_string s).

(** [str::split_once(c)] *)
Fixpoint split_once (c : ascii) (s : string) : option (string * string) :=
  match s with
  | EmptyString => None
  | String d s' =>
      if ascii_dec c d then Some (EmptyString, s')
      else match split_once c s' with
           | Some (a, b) => Some (String d a, b)
           | None => None
           end
  end.

End Str.

(** ** The chunk planner [TTSKoko::split_text_into_chunks] *)

Section Planner.

(** [text_to_phonemes(text, lang, None, true, false)]: the espeak binding. *)
Variable PErr : Type.
Variable text_to_phonemes : string -> string -> result (list string) PErr.
(** [crate::tts::tokenize::tokenize]: phoneme string to token ids. *)
Variable tokenize : string -> list nat.

(** [tokenize(&text_to_phonemes(s, "en", ..).unwrap_or_default().join("")).len()] *)
Definition en_token_count (s : string) : nat :=
  length (tokenize (Str.join (unwrap_or_default (text_to_phonemes "en" s)))).

Definition is_sentence_end (c : ascii) : bool :=
  match c with "."%char | "?"%char | "!"%char | ";"%char => true | _ => false end.

Definition sentences (text : string) : list string :=
  List.filter (fun s => negb (Str.is_empty (Str.trim s))) (Str.split is_sentence_end text).

(** Inner loop over the words of an over-budget sentence; the state is
    [(chunks, word_chunk)]. *)
Definition word_step (max_tokens : nat) (st : list string * string) (word : string)
    : list string * string :=
  let '(chunks, word_chunk) := st in
  let test_chunk := if Str.is_empty word_chunk then word
                    else Str.space_join word_chunk word in
  let test_tokens := en_token_count test_chunk in
  if Nat.ltb max_tokens test_tokens then
    ((if Str.is_empty word_chunk then chunks else chunks ++ [word_chunk]), word)
  else (chunks, test_chunk).

(** One iteration of the sentence loop; the state is [(chunks, current_chunk)]. *)
Definition sentence_step (max_tokens : nat) (st : list string * string) (raw : string)
    : list string * string :=
  let '(chunks, current_chunk) := st in
  let sentence := Str.with_period (Str.trim raw) in
  let token_count := en_token_count sentence in
  if Nat.ltb max_tokens token_count then
    let '(chunks', word_chunk) :=
      fold_left (word_step max_tokens) (Str.split_whitespace sentence) (chunks, "") in
    ((if Str.is_empty word_chunk then chunks' else chunks' ++ [word_chunk]), current_chunk)
  else if negb (Str.is_empty current_chunk) then
    let test_text := Str.space_join current_chunk sentence in
    let test_tokens := en_token_count test_text in
    if Nat.ltb max_tokens test_tokens then (chunks ++ [current_chunk], sentence)
    else (chunks, test_text)
  else (chunks, sentence).

Definition split_text_into_chunks (text : string) (max_tokens : nat) : list string :=
  let '(chunks, current_chunk) :=
    fold_left (sentence_step max_tokens) (sentences text) ([], "") in
  if Str.is_empty current_chunk then chunks else chunks ++ [current_chunk].

End Planner.


(** ** Style table and [TTSKoko::mix_styles] *)

Module Styles.

(** [Vec<[[f32; 256]; 1]>]: the 511 x 1 x 256 tensor stored per style name. *)
Definition tensor := list (list (list Q)).

(** [HashMap<String, Vec<[[f32; 256]; 1]>>] *)
Abbreviation style_table := (gmap string tensor).

(** [style[0][0]]: [load_voices] only stores 511 x 1 x 256 tensors, so
    both indices are in range. *)
Definition style_row (style : tensor) : list Q := nth 0 (nth 0 style []) [].

(** [vec![0.0; 256]] *)
Definition zeros : list Q := repeat 0%Q 256.

(** [for j in 0..256 { blended_style[0][j] += style_slice[j] * portion; }] *)
Definition blend_into (acc style_slice : list Q) (portion : Q) : list Q :=
  fold_left (fun acc j => <[j := (nth j acc 0 + nth j style_slice 0 * portion)%Q]> acc)
            (seq 0 256) acc.

Section Mix.

(** [str::parse::<f32>] *)
Variable parse_f32 : string -> option Q.

(** [if let Some((name, portion)) = style.split_once('.') {
       if let Ok(portion) = portion.parse::<f32>() {
         style_names.push(name); style_portions.push(portion * 0.1); } }] *)
Definition parse_segment (st : list string * list Q) (style : string) : list string * list Q :=
  let '(style_names, style_portions) := st in
  match Str.split_once "." style with
  | Some (name, portion) =>
      match parse_f32 portion with
      | Some p => (style_names ++ [name], style_portions ++ [(p * (1 # 10))%Q])
      | None => (style_names, style_portions)
      end
  | None => (style_names, style_portions)
  end.

Definition blend_step (styles : style_table) (acc : list Q) (np : string * Q) : list Q :=
  let '(name, portion) := np in
  match styles !! name with
  | Some style => blend_into acc (style_row style) portion
  | None => acc
  end.

Definition mix_styles (styles : style_table) (style_name : string) : result (list (list Q)) string :=
  if negb (Str.contains "+" style_name) then
    match styles !! style_name with
    | Some style => Ok [style_row style]
    | None => Err (String.append "can not found from styles_map: " style_name)
    end
  else
    let '(style_names, style_portions) :=
      fold_left parse_segment (Str.split (fun c => if ascii_dec c "+" then true else false) style_name) ([], []) in
    Ok [fold_left (blend_step styles) (combine style_names style_portions) zeros].

End Mix.

End Styles.

(** The blend as the spec describes it, in one pass over the segments: a
    segment [name.w] whose weight parses adds [w * 0.1 * StyleTable[name]]
    coordinatewise; any other segment, or an absent name, adds nothing. *)
Module BlendSpec.
Import Styles.

Definition segment_delta (parse_f32 : string -> option Q) (styles : style_table) (j : nat)
    (s : Q) (seg : string) : Q :=
  match Str.split_once "." seg with
  | Some (name, w) =>
      match parse_f32 w, styles !! name with
      | Some p, Some style => (s + nth j (style_row style) 0 * (p * (1 # 10)))%Q
      | _, _ => s
      end
  | None => s
  end.

Definition blend_coord (parse_f32 : string -> option Q) (styles : style_table)
    (segs : list string) (j : nat) : Q :=
  fold_left (segment_delta parse_f32 styles j) segs 0%Q.

End BlendSpec.

(** ** [apply_phase_shift]: first-order all-pass filter *)

(** [for &x in audio { let y = k * x + y1 - k * x1; output.push(y); x1 = x; y1 = y; }] *)
Definition phase_step (k : Q) (st : list Q * Q * Q) (x : Q) : list Q * Q * Q :=
  let '(output, y1, x1) := st in
  let y := (k * x + y1 - k * x1)%Q in
  (output ++ [y], y, x).

Definition apply_phase_shift (audio : list Q) (phase_shift : Q) : list Q :=
  let '(output, _, _) := fold_left (phase_step phase_shift) audio ([], 0%Q, 0%Q) in output.

(** ** [tts_raw_audio] and [tts] *)

(** The [Box<dyn Error>] values [tts_raw_audio] can return: the message of
    [mix_styles], the phonemizer's error, or
    [format!("Chunk processing failed: {:?}", e)] built from the inference
    error [e] alone. *)
Inductive tts_error (PErr IErr : Type) : Type :=
| StyleError (msg : string)
| PhonemizeError (e : PErr)
| ChunkProcessingFailed (e : IErr).
Arguments StyleError {PErr IErr} msg.
Arguments PhonemizeError {PErr IErr} e.
Arguments ChunkProcessingFailed {PErr IErr} e.

(** What the WAV writer is asked to do, in order.  The [hound] writer's
    own errors ([?] on [create], [write_sample] and [finalize]) are not
    modelled: the list is the sequence of calls [tts] makes when every one
    of them succeeds; a failing call would end it early with that error. *)
Inductive wav_event : Type :=
| WavCreate (path : string) (channels : nat)
| WriteSample (x : Q)
| Finalize.

Section Engine.

Variables PErr IErr : Type.
Variable text_to_phonemes : string -> string -> result (list string) PErr.
Variable tokenize : string -> list nat.
(** [self.model.infer(tokens, styles, speed)] *)
Variable infer : list (list nat) -> list (list Q) -> Q -> result (list Q) IErr.
Variable parse_f32 : string -> option Q.

(** The [for chunk in chunks] loop of [tts_raw_audio]. *)
Fixpoint run_chunks (lan : string) (styles : list (list Q)) (speed : Q)
    (initial_silence : option nat) (chunks : list string) (final_audio : list Q)
    : result (list Q) (tts_error PErr IErr) :=
  match chunks with
  | [] => Ok final_audio
  | chunk :: rest =>
      match text_to_phonemes lan chunk with
      | Err e => Err (PhonemizeError e)
      | Ok phonemes =>
          (* [tokens.insert(0, 30)] repeated [initial_silence.unwrap_or(0)] times *)
          let tokens := repeat 30 (default 0 initial_silence) ++ tokenize (Str.join phonemes) in
          match infer [tokens] styles speed with
          | Ok chunk_audio => run_chunks lan styles speed initial_silence rest (final_audio ++ chunk_audio)
          | Err e => Err (ChunkProcessingFailed e)
          end
      end
  end.

Definition tts_raw_audio (table : Styles.style_table) (txt lan style_name : string) (speed : Q)
    (initial_silence : option nat) : result (list Q) (tts_error PErr IErr) :=
  let chunks := split_text_into_chunks PErr text_to_phonemes tokenize txt 500 in
  match Styles.mix_styles parse_f32 table style_name with
  | Err msg => Err (StyleError msg)
  | Ok styles => run_chunks lan styles speed initial_silence chunks []
  end.

(** The samples written after [WavWriter::create]. *)
Definition wav_samples (audio : list Q) (mono : bool) (stereo_phase_shift : Q) : list wav_event :=
  if mono then map WriteSample audio
  else if negb (Qeq_bool stereo_phase_shift 0) then
    let shifted_audio := apply_phase_shift audio stereo_phase_shift in
    flat_map (fun i => [WriteSample (nth i audio 0%Q); WriteSample (nth i shifted_audio 0%Q)])
             (seq 0 (length audio))
  else flat_map (fun sample => [WriteSample sample; WriteSample sample]) audio.

(** [tts]: the writer events it produces, and its result. *)
Definition tts (table : Styles.style_table) (txt lan style_name save_path : string) (mono : bool)
    (speed stereo_phase_shift : Q) (initial_silence : option nat)
    : list wav_event * result unit (tts_error PErr IErr) :=
  match tts_raw_audio table txt lan style_name speed initial_silence with
  | Err e => ([], Err e)
  | Ok audio =>
      let channels := if mono then 1 else 2 in
      ([WavCreate save_path channels] ++ wav_samples audio mono stereo_phase_shift ++ [Finalize], Ok tt)
  end.

End Engine.

(** ** [TTSKoko::load_voices] and [TTSKoko::new] *)

Module Voices.
Import Styles.

Local Set Warnings "-register-all".

(** A [serde_json::Value]. *)
Inductive json : Type :=
| JNull
| JBool (b : bool)
| JNumber (q : Q)
| JString (s : string)
| JArray (items : list json)
| JObject (fields : list (string * json)).

Definition as_array (v : json) : option (list json) :=
  match v with JArray l => Some l | _ => None end.

Definition as_f64 (v : json) : option Q :=
  match v with JNumber q => Some q | _ => None end.

(** [.iter().enumerate()] *)
Definition enumerate {A} (l : list A) : list (nat * A) := combine (seq 0 (length l)) l.

(** [vec![[[0.0; 256]; 1]; 511]] *)
Definition zero_tensor : tensor := repeat [zeros] 511.

(** [tensor[i][j][k] = num]; [None] is the index-out-of-bounds panic. *)
Definition tensor_set (t : tensor) (i j k : nat) (x : Q) : option tensor :=
  match t !! i with
  | None => None
  | Some middle =>
      match middle !! j with
      | None => None
      | Some row => if Nat.ltb k (length row) then Some (<[i := <[j := <[k := x]> row]> middle]> t)
                    else None
      end
  end.

Definition fill_inner (i j : nat) (inner_array : list json) (t : tensor) : option tensor :=
  fold_left (fun ot '(k, number) =>
               match ot with
               | None => None
               | Some t => match as_f64 number with
                           | Some num => tensor_set t i j k num
                           | None => Some t
                           end
               end) (enumerate inner_array) (Some t).

Definition fill_middle (i : nat) (middle_array : list json) (t : tensor) : option tensor :=
  fold_left (fun ot '(j, inner_inner_value) =>
               match ot with
               | None => None
               | Some t => match as_array inner_inner_value with
                           | Some inner_array => fill_inner i j inner_array t
                           | None => Some t
                           end
               end) (enumerate middle_array) (Some t).

Definition fill_tensor (outer_array : list json) : option tensor :=
  fold_left (fun ot '(i, inner_value) =>
               match ot with
               | None => None
               | Some t => match as_array inner_value with
                           | Some middle_array => fill_middle i middle_array t
                           | None => Some t
                           end
               end) (enumerate outer_array) (Some zero_tensor).

(** [load_voices]: [loaded] is [load_json_file(JSON_DATA_F)]; the result is
    the new style table, [None] when an index panics. *)
Definition load_voices {E} (loaded : result json E) (styles : style_table) : option style_table :=
  match loaded with
  | Ok (JObject obj) =>
      fold_left (fun os '(key, value) =>
                   match os with
                   | None => None
                   | Some styles => match as_array value with
                                    | Some outer_array =>
                                        match fill_tensor outer_array with
                                        | Some tensor => Some (<[key := tensor]> styles)
                                        | None => None
                                        end
                                    | None => Some styles
                                    end
                   end) obj (Some styles)
  | Ok _ => Some styles
  | Err _ => Some styles
  end.

(** [TTSKoko::new] after the model is in place: an empty table, then
    [instance.load_voices()]. *)
Definition new_styles {E} (loaded : result json E) : option style_table :=
  load_voices loaded ∅.

End Voices.

(** ** Instance construction in [main] ([src/koko/src/main.rs]) *)

Module Main.

Inductive mode : Type :=
| Text (text save_path : string)
| File (input_path save_path_format : string)
| Stream
| OpenAI (ip : string) (port : nat).

(** The calls [TTSKoko::new(&model_path, &data_path, n)] made by [main],
    in order: the CLI instance of the first [match], then the server
    instances of [Mode::OpenAI]. *)
Definition instances_created (m : mode) (model_path data_path : string) (instances : nat)
    : list (string * string * nat) :=
  let tts := match m with
             | OpenAI _ _ => []
             | _ => [(model_path, data_path, 1)]
             end in
  let tts_instances := match m with
                       | OpenAI _ _ => map (fun _ => (model_path, data_path, instances)) (seq 0 instances)
                       | _ => []
                       end in
  tts ++ tts_instances.

End Main.

(** ** [Mode::File] in [main] *)

Module MainFile.

Definition is_newline (c : ascii) : bool := if ascii_dec c "010" then true else false.

(** [line.strip_suffix('\r')], keeping the line when it does not end in it. *)
Definition strip_cr (s : string) : string :=
  match rev (list_ascii_of_string s) with
  | c :: r => if ascii_dec c "013" then string_of_list_ascii (rev r) else s
  | [] => s
  end.

(** [str::lines]: the pieces of [split_inclusive('\n')]; a piece ending in
    a newline loses it and then a carriage return before it; the last
    piece, without newline, is kept as it is when it is not empty. *)
Definition lines (s : string) : list string :=
  let pieces := Str.split is_newline s in
  map strip_cr (removelast pieces) ++
  (if Str.is_empty (List.last pieces EmptyString) then [] else [List.last pieces EmptyString]).

(** [usize::to_string]: decimal digits. *)
Definition to_string (n : nat) : string := NilEmpty.string_of_uint (Nat.to_uint n).

(** [str::replace(from, to)] for a non-empty pattern [from]: the matches
    are taken from left to right without overlap; [skip] counts the
    characters of the current match still to pass over. *)
Fixpoint replace_from (from to : string) (skip : nat) (s : string) : string :=
  match s with
  | EmptyString => EmptyString
  | String c s' =>
      match skip with
      | S k => replace_from from to k s'
      | O => if String.prefix from s then String.append to (replace_from from to (String.length from - 1) s')
             else String c (replace_from from to 0 s')
      end
  end.

Definition replace (s from to : string) : string := replace_from from to 0 s.

(** The loop [for (i, line) in file_content.lines().enumerate()] of
    [Mode::File]: the calls [tts.tts(TTSOpts { txt, save_path, .. })] it
    makes, as [(txt, save_path)] pairs in order, and its result; the [?]
    after the call returns its first error. *)
Fixpoint file_loop {E} (tts_call : string -> string -> result unit E) (save_path_format : string)
    (i : nat) (ls : list string) : list (string * string) * result unit E :=
  match ls with
  | [] => ([], Ok tt)
  | line :: rest =>
      let stripped_line := Str.trim line in
      if Str.is_empty stripped_line then file_loop tts_call save_path_format (S i) rest
      else
        let save_path := replace save_path_format "{line}" (to_string i) in
        match tts_call stripped_line save_path with
        | Err e => ([(stripped_line, save_path)], Err e)
        | Ok _ =>
            let '(calls, r) := file_loop tts_call save_path_format (S i) rest in
            ((stripped_line, save_path) :: calls, r)
        end
  end.

(** [Mode::File] once [fs::read_to_string(input_path)] returned
    [file_content]. *)
Definition file_mode {E} (tts_call : string -> string -> result unit E)
    (file_content save_path_format : string) : list (string * string) * result unit E :=
  file_loop tts_call save_path_format 0 (lines file_content).

End MainFile.

(** ** The tokenizer contract

    Modelled from the spec: [crate::tts::tokenize::tokenize], whose source
    is not part of this tree.  Each character of the phoneme string is looked
    up in the fixed symbol table; characters absent from it are skipped. *)
Definition spec_tokenize (symbol_index : ascii -> option nat) (phonemes : string) : list nat :=
  flat_map (fun c => match symbol_index c with Some id => [id] | None => [] end)
           (list_ascii_of_string phonemes).

(** ** Auxiliary definitions used by the proofs *)

(** A planned chunk is within budget, or it is one single word. *)
Definition chunk_ok {PErr} (text_to_phonemes : string -> string -> result (list string) PErr)
    (tokenize : string -> list nat) (max_tokens : nat) (c : string) : Prop :=
  en_token_count PErr text_to_phonemes tokenize c <= max_tokens \/ Str.split_whitespace c = [c].

Definition is_plus (c : ascii) : bool := if ascii_dec c "+" then true else false.

(** The [(name, portion * 0.1)] pairs [mix_styles] collects, in order. *)
Definition parsed_segments (parse_f32 : string -> option Q) (segs : list string) : list (string * Q) :=
  flat_map (fun seg => match Str.split_once "." seg with
                       | Some (name, w) => match parse_f32 w with
                                           | Some p => [(name, (p * (1 # 10))%Q)]
                                           | None => []
                                           end
                       | None => []
                       end) segs.

(** Chunk [c] of a request fails with error [e]: its phonemization fails,
    or the inference call on its tokens fails. *)
Definition chunk_fails {PErr IErr} (text_to_phonemes : string -> string -> result (list string) PErr)
    (tokenize : string -> list nat) (infer : list (list nat) -> list (list Q) -> Q -> result (list Q) IErr)
    (lan : string) (styles : list (list Q)) (speed : Q)
    (initial_silence : option nat) (c : string) (e : tts_error PErr IErr) : Prop :=
  (exists pe, text_to_phonemes lan c = Err pe /\ e = PhonemizeError pe) \/
  (exists ph ie, text_to_phonemes lan c = Ok ph /\
     infer [repeat 30 (default 0 initial_silence) ++ tokenize (Str.join ph)] styles speed = Err ie /\
     e = ChunkProcessingFailed ie).

(** Chunk [c] of a request goes through: it phonemizes and the inference
    call on its tokens returns audio. *)
Definition chunk_succeeds {PErr IErr} (text_to_phonemes : string -> string -> result (list string) PErr)
    (tokenize : string -> list nat) (infer : list (list nat) -> list (list Q) -> Q -> result (list Q) IErr)
    (lan : string) (styles : list (list Q)) (speed : Q)
    (initial_silence : option nat) (c : string) : Prop :=
  exists ph a, text_to_phonemes lan c = Ok ph /\
     infer [repeat 30 (default 0 initial_silence) ++ tokenize (Str.join ph)] styles speed = Ok a.

(** The all-pass filter as a recursive function of its state [(y1, x1)]. *)
Fixpoint allpass (k : Q) (audio : list Q) (y1 x1 : Q) : list Q :=
  match audio with
  | [] => []
  | x :: rest => let y := (k * x + y1 - k * x1)%Q in y :: allpass k rest y x
  end.

(** The words of a chunk list, in order. *)
Definition chunk_words (chunks : list string) : list string :=
  flat_map Str.split_whitespace chunks.

(** The words of the period-terminated sentences the planner works on. *)
Definition sentence_words (text : string) : list string :=
  flat_map (fun raw => Str.split_whitespace (Str.with_period (Str.trim raw))) (sentences text).

(** A character other than the sentence ends ['?'], ['!'] and [';']. *)
Definition plain_char (c : ascii) : bool :=
  match c with "?"%char | "!"%char | ";"%char => false | _ => true end.

Definition no_other_terminal (s : string) : bool := forallb plain_char (list_ascii_of_string s).

(** The 511 x 1 x 256 shape of the tensors [load_voices] fills. *)
Definition shaped (t : Styles.tensor) : bool :=
  Nat.eqb (length t) 511 &&
  forallb (fun m => Nat.eqb (length m) 1 && forallb (fun r => Nat.eqb (length r) 256) m) t.

(** A tensor written out as nested JSON arrays of numbers, as stored in
    the voices file. *)
Definition encode_tensor (t : Styles.tensor) : list Voices.json :=
  map (fun m => Voices.JArray (map (fun r => Voices.JArray (map Voices.JNumber r)) m)) t.

(** The loop bodies of [load_voices], one per nesting level. *)
Definition inner_step (i j : nat) (ot : option Styles.tensor) (p : nat * Voices.json)
    : option Styles.tensor :=
  let '(k, number) := p in
  match ot with
  | None => None
  | Some t => match Voices.as_f64 number with
              | Some num => Voices.tensor_set t i j k num
              | None => Some t
              end
  end.

Definition middle_step (i : nat) (ot : option Styles.tensor) (p : nat * Voices.json)
    : option Styles.tensor :=
  let '(j, inner_inner_value) := p in
  match ot with
  | None => None
  | Some t => match Voices.as_array inner_inner_value with
              | Some inner_array => Voices.fill_inner i j inner_array t
              | None => Some t
              end
  end.

Definition outer_step (ot : option Styles.tensor) (p : nat * Voices.json) : option Styles.tensor :=
  let '(i, inner_value) := p in
  match ot with
  | None => None
  | Some t => match Voices.as_array inner_value with
              | Some middle_array => Voices.fill_middle i middle_array t
              | None => Some t
              end
  end.

Definition voice_step (os : option Styles.style_table) (kv : string * Voices.json)
    : option Styles.style_table :=
  let '(key, value) := kv in
  match os with
  | None => None
  | Some styles => match Voices.as_array value with
                   | Some outer_array =>
                       match Voices.fill_tensor outer_array with
                       | Some tensor => Some (<[key := tensor]> styles)
                       | None => None
                       end
                   | None => Some styles
                   end
  end.

(** The calls [Mode::File] is to make: one per non-blank line, with the
    trimmed line and the format with the line's index. *)
Definition planned_calls (save_path_format : string) (i : nat) (ls : list string) : list (string * string) :=
  map (fun nl => (Str.trim (snd nl), MainFile.replace save_path_format "{line}" (MainFile.to_string (fst nl))))
      (List.filter (fun nl => negb (Str.is_empty (Str.trim (snd nl)))) (combine (seq i (length ls)) ls)).

(** The number of matches [MainFile.replace_from] replaces. *)
Fixpoint matches_from (from : string) (skip : nat) (s : string) : nat :=
  match s with
  | EmptyString => 0
  | String c s' =>
      match skip with
      | S k => matches_from from k s'
      | O => if String.prefix from s then S (matches_from from (String.length from - 1) s')
             else matches_from from 0 s'
      end
  end.

(** ** Concrete engines for the examples *)

Module Concrete.

(** A phonemizer that returns its input text, for every language. *)
Definition echo_phonemes (lan s : string) : result (list string) unit := Ok [s].

(** One token per character. *)
Definition char_tokens (s : string) : list nat := map (fun _ => 0) (list_ascii_of_string s).

(** An inference engine that always fails. *)
Definition failing_infer (tokens : list (list nat)) (styles : list (list Q)) (speed : Q)
    : result (list Q) unit := Err tt.

Fixpoint digits_value (s : string) (acc : Z) : option Z :=
  match s with
  | EmptyString => Some acc
  | String c s' =>
      let n := Ascii.nat_of_ascii c in
      if (Nat.leb 48 n && Nat.leb n 57)%bool then digits_value s' (acc * 10 + Z.of_nat (n - 48))%Z
      else None
  end.

(** [str::parse::<f32>] on unsigned digit strings. *)
Definition parse_digits (s : string) : option Q :=
  match s with
  | EmptyString => None
  | _ => option_map inject_Z (digits_value s 0%Z)
  end.

(** A style whose first row is the [i]-th unit vector. *)
Definition unit_style (i : nat) : Styles.tensor := [[ <[i := 1%Q]> Styles.zeros ]].

Definition ab_table : Styles.style_table :=
  <["a" := unit_style 0]> (<["b" := unit_style 1]> ∅).

(** An inference engine that refuses inputs of at most 300 tokens. *)
Definition long_only_infer (tokens : list (list nat)) (styles : list (list Q)) (speed : Q)
    : result (list Q) unit := if Nat.ltb 300 (length (concat tokens)) then Ok [1%Q] else Err tt.

(** A phonemizer that knows only English. *)
Definition english_only (lan s : string) : result (list string) unit :=
  if String.eqb lan "en" then Ok [s] else Err tt.

(** A sentence of 120 words, 720 characters. *)
Definition long_sentence : string := String.concat "" (repeat "hello " 120).

End Concrete.

(** ** Facts about the [str] helpers *)

Module StrFacts.

Lemma split_no_sep (p : ascii -> bool) (s w : string) :
  In w (Str.split p s) -> forall c, In c (list_ascii_of_string w) -> p c = false.
Proof.
  revert w. induction s as [|d s IH]; simpl; intros w Hin c Hc.
  - destruct Hin as [<-|[]]. contradiction.
  - destruct (p d) eqn:Hd.
    + destruct Hin as [<-|Hin]; [contradiction|]. eauto.
    + destruct (Str.split p s) as [|h t] eqn:Hs.
      * destruct Hin as [<-|[]]. simpl in Hc. destruct Hc as [<-|[]]. exact Hd.
      * destruct Hin as [<-|Hin].
        -- simpl in Hc. destruct Hc as [<-|Hc]; [exact Hd|]. apply (IH h); [left; reflexivity|exact Hc].
        -- apply (IH w); [right; exact Hin|exact Hc].
Qed.

Lemma split_no_sep_self (p : ascii -> bool) (w : string) :
  (forall c, In c (list_ascii_of_string w) -> p c = false) -> Str.split p w = [w].
Proof.
  induction w as [|d w IH]; simpl; intros H; [reflexivity|].
  rewrite (H d (or_introl eq_refl)).
  rewrite IH by (intros c Hc; apply H; right; exact Hc). reflexivity.
Qed.

(** Every piece of [split_whitespace] is a single word. *)
Lemma split_whitespace_word (s w : string) :
  In w (Str.split_whitespace s) -> Str.split_whitespace w = [w].
Proof.
  unfold Str.split_whitespace. intros Hin.
  apply filter_In in Hin as [Hin Hne].
  unfold Str.split_whitespace. rewrite (split_no_sep_self _ w (split_no_sep _ _ _ Hin)).
  simpl. rewrite Hne. reflexivity.
Qed.

End StrFacts.

(** A loop invariant carried through [fold_left]. *)
Lemma fold_left_invariant {S A} (f : S -> A -> S) (I : S -> Prop) (P : A -> Prop)
    (Hstep : forall s a, I s -> P a -> I (f s a)) :
  forall l s, Forall P l -> I s -> I (fold_left f l s).
Proof.
  induction l as [|a l IH]; simpl; intros s Hl Hs; [exact Hs|].
  inversion Hl; subst. apply IH; auto.
Qed.

Section PlannerFacts.

Variable PErr : Type.
Variable text_to_phonemes : string -> string -> result (list string) PErr.
Variable tokenize : string -> list nat.

Local Abbreviation count := (en_token_count PErr text_to_phonemes tokenize).

Local Abbreviation chunk_ok := (chunk_ok text_to_phonemes tokenize).

Lemma word_loop_ok (max_tokens : nat) (words : list string) (chunks : list string) (wc : string) :
  Forall (fun w => Str.split_whitespace w = [w]) words ->
  Forall (chunk_ok max_tokens) chunks ->
  Str.is_empty wc = true \/ chunk_ok max_tokens wc ->
  let '(chunks', wc') := fold_left (word_step PErr text_to_phonemes tokenize max_tokens) words (chunks, wc) in
  Forall (chunk_ok max_tokens) chunks' /\ (Str.is_empty wc' = true \/ chunk_ok max_tokens wc').
Proof.
  intros Hw Hc Hwc.
  set (I := fun st : list string * string =>
              let '(c, w) := st in
              Forall (chunk_ok max_tokens) c /\ (Str.is_empty w = true \/ chunk_ok max_tokens w)).
  change (I (fold_left (word_step PErr text_to_phonemes tokenize max_tokens) words (chunks, wc))).
  apply (fold_left_invariant _ I (fun w => Str.split_whitespace w = [w])); [|exact Hw|split; assumption].
  intros [c w] a [Hc' Hw'] Ha. unfold word_step.
  destruct (Nat.ltb max_tokens _) eqn:Hlt.
  - split; [|right; right; exact Ha].
    destruct (Str.is_empty w) eqn:He; [exact Hc'|].
    apply Forall_app; split; [exact Hc'|]. constructor; [|constructor].
    destruct Hw' as [Hw'|Hw']; [congruence|exact Hw'].
  - split; [exact Hc'|]. right. left. apply Nat.ltb_ge. exact Hlt.
Qed.

Lemma split_text_into_chunks_ok (text : string) (max_tokens : nat) :
  Forall (chunk_ok max_tokens) (split_text_into_chunks PErr text_to_phonemes tokenize text max_tokens).
Proof.
  unfold split_text_into_chunks.
  set (I := fun st : list string * string =>
              let '(c, w) := st in
              Forall (chunk_ok max_tokens) c /\ (Str.is_empty w = true \/ count w <= max_tokens)).
  assert (HI : I (fold_left (sentence_step PErr text_to_phonemes tokenize max_tokens) (sentences text) ([], ""))).
  { apply (fold_left_invariant _ I (fun _ => True)); [| apply List.Forall_forall; auto | split; [constructor|left; reflexivity]].
    intros [c w] raw [Hc Hw] _. unfold sentence_step.
    destruct (Nat.ltb max_tokens (count _)) eqn:Hlt.
    - pose proof (word_loop_ok max_tokens (Str.split_whitespace (Str.with_period (Str.trim raw))) c "")
        as Hloop.
      destruct (fold_left _ _ _) as [c' w'] eqn:Hf.
      destruct Hloop as [Hc' Hw'].
      + apply List.Forall_forall. intros x Hx. eapply StrFacts.split_whitespace_word; exact Hx.
      + exact Hc.
      + left; reflexivity.
      + split; [|exact Hw].
        destruct (Str.is_empty w') eqn:He; [exact Hc'|].
        apply Forall_app; split; [exact Hc'|]. constructor; [|constructor].
        destruct Hw' as [Hw'|Hw']; [congruence|exact Hw'].
    - destruct (negb (Str.is_empty w)) eqn:Hne.
      + destruct (Nat.ltb max_tokens (count (Str.space_join w _))) eqn:Hlt2.
        * split; [|right; apply Nat.ltb_ge; exact Hlt].
          apply Forall_app; split; [exact Hc|]. constructor; [|constructor].
          left. destruct Hw as [Hw|Hw]; [rewrite Hw in Hne; discriminate|exact Hw].
        * split; [exact Hc|]. right. apply Nat.ltb_ge. exact Hlt2.
      + split; [exact Hc|]. right. apply Nat.ltb_ge. exact Hlt. }
  destruct (fold_left _ _ _) as [c w]. destruct HI as [Hc Hw].
  destruct (Str.is_empty w) eqn:He; [exact Hc|].
  apply Forall_app; split; [exact Hc|]. constructor; [|constructor].
  left. destruct Hw as [Hw|Hw]; [congruence|exact Hw].
Qed.

End PlannerFacts.

(** ** Facts about the blend *)

Module StyleFacts.
Import Styles.

Lemma nth_insert (l : list Q) (i j : nat) (x d : Q) :
  i < length l -> nth j (<[i := x]> l) d = if Nat.eq_dec i j then x else nth j l d.
Proof.
  intros Hi. rewrite !nth_lookup. destruct (Nat.eq_dec i j) as [<-|Hne].
  - rewrite list_lookup_insert_eq by exact Hi. reflexivity.
  - rewrite list_lookup_insert_ne by exact Hne. reflexivity.
Qed.

Lemma blend_loop (v : list Q) (p : Q) (l : list nat) :
  NoDup l -> forall acc : list Q, (forall i, In i l -> i < length acc) ->
  let res := fold_left (fun acc j => <[j := (nth j acc 0 + nth j v 0 * p)%Q]> acc) l acc in
  length res = length acc /\
  (forall j, In j l -> nth j res 0%Q = (nth j acc 0 + nth j v 0 * p)%Q) /\
  (forall j, ~ In j l -> nth j res 0%Q = nth j acc 0%Q).
Proof.
  induction l as [|i l IH]; intros Hnd acc Hlt; simpl.
  - split; [reflexivity|]. split; [intros j []|intros j _; reflexivity].
  - apply NoDup_cons in Hnd as [Hi Hnd]. rewrite list_elem_of_In in Hi.
    assert (Hia : i < length acc) by (apply Hlt; left; reflexivity).
    set (acc' := <[i := (nth i acc 0 + nth i v 0 * p)%Q]> acc).
    assert (Hlen : length acc' = length acc) by apply length_insert.
    destruct (IH Hnd acc') as [H1 [H2 H3]].
    { intros k Hk. rewrite Hlen. apply Hlt. right. exact Hk. }
    split; [rewrite H1; exact Hlen|]. split.
    + intros j [<-|Hj].
      * rewrite H3 by exact Hi.
        unfold acc'. rewrite nth_insert by exact Hia.
        destruct (Nat.eq_dec i i); [reflexivity|congruence].
      * rewrite H2 by exact Hj. unfold acc'. rewrite !nth_insert by exact Hia.
        destruct (Nat.eq_dec i j) as [->|]; [|reflexivity].
        exfalso. apply Hi. exact Hj.
    + intros j Hj. rewrite H3 by (intros Hin; apply Hj; right; exact Hin).
      unfold acc'. rewrite nth_insert by exact Hia.
      destruct (Nat.eq_dec i j) as [->|]; [|reflexivity].
      exfalso. apply Hj. left. reflexivity.
Qed.

Lemma blend_into_length (acc v : list Q) (p : Q) :
  length acc = 256 -> length (blend_into acc v p) = 256.
Proof.
  intros H. unfold blend_into.
  destruct (blend_loop v p (seq 0 256) (NoDup_seq 0 256) acc) as [Hl _].
  { intros i Hi. apply in_seq in Hi. lia. }
  rewrite Hl. exact H.
Qed.

Lemma blend_into_nth (acc v : list Q) (p : Q) (j : nat) :
  length acc = 256 -> j < 256 ->
  nth j (blend_into acc v p) 0%Q = (nth j acc 0 + nth j v 0 * p)%Q.
Proof.
  intros H Hj. unfold blend_into.
  destruct (blend_loop v p (seq 0 256) (NoDup_seq 0 256) acc) as [_ [Hin _]].
  { intros i Hi. apply in_seq in Hi. lia. }
  apply Hin. apply in_seq. lia.
Qed.

End StyleFacts.


Module MixFacts.
Import Styles.

Section WithParse.
Variable parse_f32 : string -> option Q.

Local Abbreviation parsed := (parsed_segments parse_f32).

Lemma combine_snoc {A B} (l1 : list A) (l2 : list B) a b :
  length l1 = length l2 -> combine (l1 ++ [a]) (l2 ++ [b]) = combine l1 l2 ++ [(a, b)].
Proof.
  revert l2. induction l1 as [|x l1 IH]; intros [|y l2] H; simpl in *; try discriminate; [reflexivity|].
  f_equal. apply IH. lia.
Qed.

Lemma parse_fold (segs : list string) (names : list string) (ports : list Q) :
  length names = length ports ->
  let '(names', ports') := fold_left (parse_segment parse_f32) segs (names, ports) in
  length names' = length ports' /\ combine names' ports' = combine names ports ++ parsed segs.
Proof.
  revert names ports. induction segs as [|seg segs IH]; intros names ports Hl; simpl.
  - rewrite app_nil_r. split; [exact Hl|reflexivity].
  - unfold parse_segment at 1.
    destruct (Str.split_once "." seg) as [[name w]|] eqn:Hs.
    + destruct (parse_f32 w) as [p|] eqn:Hp.
      * pose proof (IH (names ++ [name]) (ports ++ [(p * (1 # 10))%Q])) as IH'.
        rewrite !length_app in IH'. simpl in IH'.
        destruct (fold_left _ segs _) as [n' p'].
        destruct IH' as [H1 H2]; [lia|]. split; [exact H1|].
        rewrite H2, combine_snoc by exact Hl. rewrite <- app_assoc. reflexivity.
      * pose proof (IH names ports Hl) as IH'. destruct (fold_left _ segs _). exact IH'.
    + pose proof (IH names ports Hl) as IH'. destruct (fold_left _ segs _). exact IH'.
Qed.

Lemma blend_fold (styles : style_table) (l : list (string * Q)) (acc : list Q) :
  length acc = 256 ->
  length (fold_left (blend_step styles) l acc) = 256 /\
  forall j, j < 256 ->
    nth j (fold_left (blend_step styles) l acc) 0%Q =
    fold_left (fun s '(name, w) => match styles !! name with
                                   | Some style => (s + nth j (style_row style) 0 * w)%Q
                                   | None => s
                                   end) l (nth j acc 0%Q).
Proof.
  revert acc. induction l as [|[name w] l IH]; intros acc Hl; simpl.
  - split; [exact Hl|reflexivity].
  - destruct (styles !! name) as [style|] eqn:Hn.
    + destruct (IH (blend_into acc (style_row style) w)) as [H1 H2].
      { apply StyleFacts.blend_into_length. exact Hl. }
      split; [exact H1|]. intros j Hj. rewrite H2 by exact Hj.
      rewrite StyleFacts.blend_into_nth by assumption. reflexivity.
    + apply IH. exact Hl.
Qed.

Lemma parsed_coord (styles : style_table) (segs : list string) (j : nat) (s : Q) :
  fold_left (fun s '(name, w) => match styles !! name with
                                 | Some style => (s + nth j (style_row style) 0 * w)%Q
                                 | None => s
                                 end) (parsed segs) s =
  fold_left (BlendSpec.segment_delta parse_f32 styles j) segs s.
Proof.
  revert s. induction segs as [|seg segs IH]; intros s; simpl; [reflexivity|].
  rewrite fold_left_app. unfold BlendSpec.segment_delta at 2.
  destruct (Str.split_once "." seg) as [[name w]|]; [|apply IH].
  destruct (parse_f32 w) as [p|]; simpl; [|apply IH].
  destruct (styles !! name); apply IH.
Qed.

(** The two-pass loop of [mix_styles] (collect names and portions, then
    zip and accumulate) computes the one-pass blend of [BlendSpec]. *)
Lemma mix_styles_blend (styles : style_table) (style_name : string) :
  Str.contains "+" style_name = true ->
  exists v, mix_styles parse_f32 styles style_name = Ok [v] /\ length v = 256 /\
    forall j, j < 256 ->
      nth j v 0%Q = BlendSpec.blend_coord parse_f32 styles (Str.split is_plus style_name) j.
Proof.
  intros Hc. unfold mix_styles. rewrite Hc. simpl.
  pose proof (parse_fold (Str.split is_plus style_name) [] [] eq_refl) as Hp.
  unfold is_plus in Hp.
  destruct (fold_left _ _ _) as [names ports]. destruct Hp as [_ Hcomb].
  simpl in Hcomb. rewrite Hcomb.
  destruct (blend_fold styles (parsed (Str.split is_plus style_name)) zeros) as [H1 H2];
    [reflexivity|].
  eexists. split; [reflexivity|]. split; [exact H1|].
  intros j Hj. rewrite H2 by exact Hj. unfold BlendSpec.blend_coord.
  replace (nth j zeros 0%Q) with 0%Q.
  - apply parsed_coord.
  - unfold zeros. symmetry. apply nth_repeat.
Qed.

End WithParse.

End MixFacts.

Module MixAppend.
Import Styles MixFacts.

Lemma split_nonempty (p : ascii -> bool) (s : string) : Str.split p s <> [].
Proof.
  destruct s as [|c s]; simpl; [discriminate|].
  destruct (p c); [discriminate|]. destruct (Str.split p s); discriminate.
Qed.

Lemma split_app_sep (p : ascii -> bool) (a b : string) (c : ascii) :
  p c = true -> Str.split p (String.append a (String c b)) = Str.split p a ++ Str.split p b.
Proof.
  intros Hc. induction a as [|d a IH]; simpl.
  - rewrite Hc. reflexivity.
  - destruct (p d); [rewrite IH; reflexivity|].
    rewrite IH. pose proof (split_nonempty p a) as Hne.
    destruct (Str.split p a) as [|h t]; [congruence|]. reflexivity.
Qed.

Lemma contains_false_no_plus (s : string) :
  Str.contains "+" s = false -> forall d, In d (list_ascii_of_string s) -> is_plus d = false.
Proof.
  unfold Str.contains, is_plus. intros Hs d Hd.
  destruct (ascii_dec d "+") as [->|]; [|reflexivity].
  rewrite <- Hs. symmetry. apply existsb_exists. exists "+"%char. split; [exact Hd|].
  destruct (ascii_dec "+" "+"); congruence.
Qed.

Lemma list_ascii_of_string_app (s t : string) :
  list_ascii_of_string (String.append s t) = list_ascii_of_string s ++ list_ascii_of_string t.
Proof. induction s as [|d s IH]; simpl; [reflexivity|]. rewrite IH. reflexivity. Qed.

Lemma contains_app_l (c : ascii) (s t : string) :
  Str.contains c s = true -> Str.contains c (String.append s t) = true.
Proof.
  unfold Str.contains. intros H. apply existsb_exists in H as [d [Hd Hcd]].
  apply existsb_exists. exists d. split; [|exact Hcd].
  rewrite list_ascii_of_string_app. apply in_or_app. left. exact Hd.
Qed.

Lemma contains_app (c : ascii) (s t : string) :
  Str.contains c (String.append s t) = (Str.contains c s || Str.contains c t)%bool.
Proof.
  unfold Str.contains. rewrite list_ascii_of_string_app. apply existsb_app.
Qed.

Lemma split_once_app (name w : string) :
  Str.contains "." name = false ->
  Str.split_once "." (String.append name (String "." w)) = Some (name, w).
Proof.
  induction name as [|d name IH]; intros H.
  - cbn [String.append Str.split_once]. destruct (ascii_dec "." "."); [reflexivity|congruence].
  - unfold Str.contains in H. cbn [list_ascii_of_string existsb] in H.
    apply Bool.orb_false_iff in H as [H1 H2].
    destruct (ascii_dec "." d); [discriminate|].
    change (String.append (String d name) (String "." w))
      with (String d (String.append name (String "." w))).
    cbn [Str.split_once]. destruct (ascii_dec "." d); [contradiction|].
    rewrite IH by exact H2. reflexivity.
Qed.

(** Appending a segment [+name.w] whose [name] is absent from the table
    leaves a blended resolution unchanged. *)
Lemma mix_styles_absent_segment (parse_f32 : string -> option Q) (styles : style_table)
    (s name w : string) :
  Str.contains "+" s = true -> styles !! name = None ->
  Str.contains "." name = false -> Str.contains "+" name = false -> Str.contains "+" w = false ->
  mix_styles parse_f32 styles (String.append s (String "+" (String.append name (String "." w)))) =
  mix_styles parse_f32 styles s.
Proof.
  intros Hs Hn Hdot Hpn Hpw.
  set (seg := String.append name (String "." w)).
  assert (Hseg : Str.contains "+" seg = false).
  { unfold seg. rewrite contains_app, Hpn. simpl. exact Hpw. }
  destruct (mix_styles_blend parse_f32 styles s Hs) as [v [Hv [Hl Hj]]].
  destruct (mix_styles_blend parse_f32 styles (String.append s (String "+" seg)))
    as [v' [Hv' [Hl' Hj']]]; [apply contains_app_l; exact Hs|].
  rewrite Hv, Hv'. do 2 f_equal.
  apply (nth_ext v' v 0%Q 0%Q); [congruence|].
  intros j Hjl. rewrite Hl' in Hjl. rewrite Hj, Hj' by exact Hjl.
  rewrite split_app_sep by reflexivity.
  rewrite (StrFacts.split_no_sep_self is_plus seg)
    by (apply contains_false_no_plus; exact Hseg).
  unfold BlendSpec.blend_coord. rewrite fold_left_app. simpl.
  unfold BlendSpec.segment_delta at 1. unfold seg.
  rewrite split_once_app by exact Hdot. rewrite Hn.
  destruct (parse_f32 w); reflexivity.
Qed.

Section Absent.
Variable parse_f32 : string -> option Q.
Variable styles : style_table.
Variables name w : string.
Hypothesis Hn : styles !! name = None.
Hypothesis Hdot : Str.contains "." name = false.
Hypothesis Hpn : Str.contains "+" name = false.
Hypothesis Hpw : Str.contains "+" w = false.

Local Abbreviation seg := (String.append name (String "." w)).

Lemma absent_no_plus : Str.contains "+" seg = false.
Proof. rewrite contains_app, Hpn. simpl. exact Hpw. Qed.

Lemma absent_split : Str.split is_plus seg = [seg].
Proof. apply StrFacts.split_no_sep_self, contains_false_no_plus, absent_no_plus. Qed.

Lemma absent_delta (j : nat) (x : Q) : BlendSpec.segment_delta parse_f32 styles j x seg = x.
Proof.
  unfold BlendSpec.segment_delta. rewrite split_once_app by exact Hdot. rewrite Hn.
  destruct (parse_f32 w); reflexivity.
Qed.

Lemma plus_left (a b : string) : Str.contains "+" (String.append a (String "+" b)) = true.
Proof. rewrite contains_app. simpl. apply Bool.orb_true_r. Qed.

(** Two blended specifications with the same coordinates resolve alike. *)
Lemma mix_styles_same_coords (s1 s2 : string) :
  Str.contains "+" s1 = true -> Str.contains "+" s2 = true ->
  (forall j, BlendSpec.blend_coord parse_f32 styles (Str.split is_plus s1) j =
             BlendSpec.blend_coord parse_f32 styles (Str.split is_plus s2) j) ->
  mix_styles parse_f32 styles s1 = mix_styles parse_f32 styles s2.
Proof.
  intros H1 H2 Hc.
  destruct (mix_styles_blend parse_f32 styles s1 H1) as [v1 [Hv1 [Hl1 Hj1]]].
  destruct (mix_styles_blend parse_f32 styles s2 H2) as [v2 [Hv2 [Hl2 Hj2]]].
  rewrite Hv1, Hv2. do 2 f_equal.
  apply (nth_ext v1 v2 0%Q 0%Q); [congruence|].
  intros j Hj. rewrite Hl1 in Hj. rewrite Hj1, Hj2 by exact Hj. apply Hc.
Qed.

(** The segment in the middle: [a+name.w+b] resolves as [a+b]. *)
Lemma mix_styles_absent_middle (a b : string) :
  mix_styles parse_f32 styles (String.append a (String "+" (String.append seg (String "+" b)))) =
  mix_styles parse_f32 styles (String.append a (String "+" b)).
Proof.
  apply mix_styles_same_coords; [apply plus_left|apply plus_left|].
  intros j. rewrite (split_app_sep is_plus a (String.append seg (String "+" b))) by reflexivity.
  rewrite (split_app_sep is_plus seg b) by reflexivity.
  rewrite (split_app_sep is_plus a b) by reflexivity. rewrite absent_split.
  unfold BlendSpec.blend_coord. rewrite !fold_left_app. simpl. rewrite absent_delta. reflexivity.
Qed.

(** The segment in front: [name.w+s] resolves as [s] when [s] is a blend. *)
Lemma mix_styles_absent_leading (s : string) :
  Str.contains "+" s = true ->
  mix_styles parse_f32 styles (String.append seg (String "+" s)) = mix_styles parse_f32 styles s.
Proof.
  intros Hs. apply mix_styles_same_coords; [apply plus_left|exact Hs|].
  intros j. rewrite split_app_sep by reflexivity. rewrite absent_split.
  unfold BlendSpec.blend_coord. simpl. rewrite absent_delta. reflexivity.
Qed.

(** Paired with one plain segment [t], on either side, the result is the
    contribution of [t] alone. *)
Lemma mix_styles_absent_pair (t : string) :
  Str.contains "+" t = false ->
  exists v, mix_styles parse_f32 styles (String.append seg (String "+" t)) = Ok [v] /\
    mix_styles parse_f32 styles (String.append t (String "+" seg)) = Ok [v] /\
    length v = 256 /\
    forall j, j < 256 -> nth j v 0%Q = BlendSpec.blend_coord parse_f32 styles [t] j.
Proof.
  intros Ht.
  assert (Hst : Str.split is_plus t = [t]).
  { apply StrFacts.split_no_sep_self, contains_false_no_plus, Ht. }
  destruct (mix_styles_blend parse_f32 styles (String.append seg (String "+" t)) (plus_left _ _))
    as [v [Hv [Hl Hj]]].
  exists v. split; [exact Hv|]. split; [|split; [exact Hl|]].
  - rewrite <- Hv. apply mix_styles_same_coords; [apply plus_left|apply plus_left|].
    intros j. rewrite (split_app_sep is_plus seg t) by reflexivity.
    rewrite (split_app_sep is_plus t seg) by reflexivity. rewrite absent_split, Hst.
    unfold BlendSpec.blend_coord. simpl. rewrite !absent_delta. reflexivity.
  - intros j Hjl. rewrite Hj by exact Hjl. rewrite split_app_sep by reflexivity.
    rewrite absent_split, Hst. unfold BlendSpec.blend_coord. simpl. rewrite absent_delta.
    reflexivity.
Qed.

End Absent.

End MixAppend.

(** ** Facts about the all-pass filter *)

Module PhaseFacts.

Lemma phase_fold (k : Q) (audio : list Q) (output : list Q) (y1 x1 : Q) :
  let '(o, _, _) := fold_left (phase_step k) audio (output, y1, x1) in
  o = output ++ allpass k audio y1 x1.
Proof.
  revert output y1 x1. induction audio as [|x audio IH]; intros output y1 x1; simpl.
  - rewrite app_nil_r. reflexivity.
  - pose proof (IH (output ++ [(k * x + y1 - k * x1)%Q]) (k * x + y1 - k * x1)%Q x) as H.
    destruct (fold_left _ _ _) as [[o y] z]. rewrite H, <- app_assoc. reflexivity.
Qed.

Lemma apply_phase_shift_allpass (audio : list Q) (k : Q) :
  apply_phase_shift audio k = allpass k audio 0 0.
Proof.
  unfold apply_phase_shift. pose proof (phase_fold k audio [] 0 0) as H.
  destruct (fold_left _ _ _) as [[o y] z]. exact H.
Qed.

Lemma allpass_length (k : Q) (audio : list Q) (y1 x1 : Q) :
  length (allpass k audio y1 x1) = length audio.
Proof.
  revert y1 x1. induction audio as [|x audio IH]; intros y1 x1; simpl; [reflexivity|].
  rewrite IH. reflexivity.
Qed.

Lemma allpass_nth (k : Q) (audio : list Q) (y1 x1 : Q) (n : nat) :
  n < length audio ->
  nth n (allpass k audio y1 x1) 0%Q =
  (k * nth n audio 0
   + match n with O => y1 | S m => nth m (allpass k audio y1 x1) 0 end
   - k * match n with O => x1 | S m => nth m audio 0 end)%Q.
Proof.
  revert n y1 x1. induction audio as [|x audio IH]; intros n y1 x1 Hn; simpl in Hn; [lia|].
  destruct n as [|m]; [reflexivity|].
  cbn [allpass nth]. rewrite IH by lia.
  destruct m; reflexivity.
Qed.

(** [nth (2 i)] and [nth (2 i + 1)] of the interleaved writes. *)
Lemma interleave_nth {A} (f g : nat -> A) (s n i : nat) (d : A) :
  i < n ->
  nth (2 * i) (flat_map (fun j => [f j; g j]) (seq s n)) d = f (s + i) /\
  nth (2 * i + 1) (flat_map (fun j => [f j; g j]) (seq s n)) d = g (s + i).
Proof.
  revert s i. induction n as [|n IH]; intros s i Hi; [lia|].
  cbn [seq flat_map app]. destruct i as [|i].
  - rewrite Nat.add_0_r. split; reflexivity.
  - replace (2 * S i) with (S (S (2 * i))) by lia.
    replace (S (S (2 * i)) + 1) with (S (S (2 * i + 1))) by lia.
    cbn [nth]. replace (s + S i) with (S s + i) by lia. apply IH. lia.
Qed.

Lemma flat_map_pair_length {A B} (f g : A -> B) (l : list A) :
  length (flat_map (fun a => [f a; g a]) l) = 2 * length l.
Proof. induction l as [|a l IH]; simpl; [reflexivity|]. rewrite IH. lia. Qed.

Lemma duplicate_nth {A B} (l : list A) (i : nat) (d : A) (w : A -> B) :
  i < length l ->
  nth (2 * i) (flat_map (fun a => [w a; w a]) l) (w d) = w (nth i l d) /\
  nth (2 * i + 1) (flat_map (fun a => [w a; w a]) l) (w d) = w (nth i l d).
Proof.
  revert i. induction l as [|a l IH]; intros i Hi; simpl in Hi; [lia|].
  cbn [flat_map app]. destruct i as [|i]; [split; reflexivity|].
  replace (2 * S i) with (S (S (2 * i))) by lia.
  replace (S (S (2 * i)) + 1) with (S (S (2 * i + 1))) by lia.
  cbn [nth]. apply IH. lia.
Qed.

End PhaseFacts.

(** ** Facts about [tts_raw_audio] *)

Module EngineFacts.

Section WithEngine.
Variables PErr IErr : Type.
Variable text_to_phonemes : string -> string -> result (list string) PErr.
Variable tokenize : string -> list nat.
Variable infer : list (list nat) -> list (list Q) -> Q -> result (list Q) IErr.

Local Abbreviation run := (run_chunks PErr IErr text_to_phonemes tokenize infer).

Local Abbreviation chunk_fails := (chunk_fails text_to_phonemes tokenize infer).

Lemma run_chunks_err (lan : string) (styles : list (list Q)) (speed : Q) (sil : option nat)
    (chunks : list string) (acc : list Q) (e : tts_error PErr IErr) :
  run lan styles speed sil chunks acc = Err e ->
  exists c, In c chunks /\ chunk_fails lan styles speed sil c e.
Proof.
  revert acc. induction chunks as [|c chunks IH]; intros acc H; simpl in H; [discriminate|].
  destruct (text_to_phonemes lan c) as [ph|pe] eqn:Hp.
  - destruct (infer _ styles speed) as [a|ie] eqn:Hi.
    + destruct (IH _ H) as [c' [Hin Hf]]. exists c'. split; [right; exact Hin|exact Hf].
    + injection H as <-. exists c. split; [left; reflexivity|]. right. exists ph, ie. auto.
  - injection H as <-. exists c. split; [left; reflexivity|]. left. exists pe. auto.
Qed.

Local Abbreviation chunk_succeeds := (chunk_succeeds text_to_phonemes tokenize infer).

(** A failing run stops at its first failing chunk: every chunk before it
    went through. *)
Lemma run_chunks_first_err (lan : string) (styles : list (list Q)) (speed : Q) (sil : option nat)
    (chunks : list string) (acc : list Q) (e : tts_error PErr IErr) :
  run lan styles speed sil chunks acc = Err e ->
  exists pre c post, chunks = pre ++ c :: post /\
    Forall (chunk_succeeds lan styles speed sil) pre /\ chunk_fails lan styles speed sil c e.
Proof.
  revert acc. induction chunks as [|c chunks IH]; intros acc H; simpl in H; [discriminate|].
  destruct (text_to_phonemes lan c) as [ph|pe] eqn:Hp.
  - destruct (infer _ styles speed) as [a|ie] eqn:Hi.
    + destruct (IH _ H) as [pre [c' [post [Heq [Hpre Hf]]]]].
      exists (c :: pre), c', post. split; [rewrite Heq; reflexivity|]. split; [|exact Hf].
      constructor; [|exact Hpre]. exists ph, a. split; assumption.
    + injection H as <-. exists [], c, chunks. split; [reflexivity|]. split; [constructor|].
      right. exists ph, ie. auto.
  - injection H as <-. exists [], c, chunks. split; [reflexivity|]. split; [constructor|].
    left. exists pe. auto.
Qed.

Lemma run_chunks_some_fails (lan : string) (styles : list (list Q)) (speed : Q) (sil : option nat)
    (chunks : list string) (acc : list Q) (c : string) (e : tts_error PErr IErr) :
  In c chunks -> chunk_fails lan styles speed sil c e ->
  exists e', run lan styles speed sil chunks acc = Err e'.
Proof.
  revert acc. induction chunks as [|c0 chunks IH]; intros acc Hin Hf; [destruct Hin|].
  simpl. destruct Hin as [<-|Hin].
  - destruct Hf as [[pe [Hp _]]|[ph [ie [Hp [Hi _]]]]].
    + rewrite Hp. eauto.
    + rewrite Hp, Hi. eauto.
  - destruct (text_to_phonemes lan c0) as [ph|pe]; [|eauto].
    destruct (infer _ styles speed); [|eauto]. apply IH; assumption.
Qed.

End WithEngine.

Lemma fold_left_ext {S A} (f g : S -> A -> S) (l : list A) (s : S) :
  (forall s a, f s a = g s a) -> fold_left f l s = fold_left g l s.
Proof.
  intros H. revert s. induction l as [|a l IH]; intros s; simpl; [reflexivity|].
  rewrite H. apply IH.
Qed.

(** The planner consults the phonemizer only for language ["en"]. *)
Lemma split_text_into_chunks_en_only {PErr} (P P' : string -> string -> result (list string) PErr)
    (tokenize : string -> list nat) (text : string) (max_tokens : nat) :
  (forall s, P "en" s = P' "en" s) ->
  split_text_into_chunks PErr P tokenize text max_tokens =
  split_text_into_chunks PErr P' tokenize text max_tokens.
Proof.
  intros HP.
  assert (Hc : forall s, en_token_count PErr P tokenize s = en_token_count PErr P' tokenize s).
  { intros s. unfold en_token_count. rewrite HP. reflexivity. }
  assert (Hw : forall st w, word_step PErr P tokenize max_tokens st w =
                           word_step PErr P' tokenize max_tokens st w).
  { intros [c wc] w. unfold word_step. rewrite Hc. reflexivity. }
  unfold split_text_into_chunks.
  rewrite (fold_left_ext _ (sentence_step PErr P' tokenize max_tokens)); [reflexivity|].
  intros [c cur] raw. unfold sentence_step. rewrite !Hc.
  rewrite (fold_left_ext _ (word_step PErr P' tokenize max_tokens)) by exact Hw.
  reflexivity.
Qed.

End EngineFacts.

(** * The claims *)

Import Concrete.

(** C1 (code bug).  A short sentence still pending in the sentence-level
    accumulator is overtaken by the word-level sub-chunks of a following
    over-budget sentence: on ["Hi. " ++ 120 x "hello "] with budget 500
    (one token per character), the words of the chunks come out as the 120
    [hello]s first and [Hi.] last, not in input order. *)
Theorem split_text_into_chunks_reorders :
  let chunks := split_text_into_chunks unit echo_phonemes char_tokens
                  (String.append "Hi. " long_sentence) 500 in
  length chunks = 3 /\ nth 2 chunks "" = "Hi." /\
  flat_map Str.split_whitespace chunks = repeat "hello" 119 ++ ["hello."; "Hi."].
Proof. vm_compute. repeat split; reflexivity. Qed.

(** C2.  Every chunk of [split_text_into_chunks] has an (English) token
    count within the budget, or is one single word; [tts_raw_audio] runs
    its chunks, planned with budget 500, through the engine. *)
Theorem split_text_into_chunks_within_budget :
  (forall PErr (text_to_phonemes : string -> string -> result (list string) PErr)
          (tokenize : string -> list nat) (text : string) (max_tokens : nat),
     Forall (chunk_ok text_to_phonemes tokenize max_tokens)
            (split_text_into_chunks PErr text_to_phonemes tokenize text max_tokens)) /\
  (forall PErr IErr (text_to_phonemes : string -> string -> result (list string) PErr)
          (tokenize : string -> list nat)
          (infer : list (list nat) -> list (list Q) -> Q -> result (list Q) IErr)
          (parse_f32 : string -> option Q) (table : Styles.style_table)
          (txt lan style_name : string) (speed : Q) (initial_silence : option nat),
     exists chunks,
       Forall (chunk_ok text_to_phonemes tokenize 500) chunks /\
       tts_raw_audio PErr IErr text_to_phonemes tokenize infer parse_f32 table txt lan style_name
                     speed initial_silence =
       match Styles.mix_styles parse_f32 table style_name with
       | Err msg => Err (StyleError msg)
       | Ok styles => run_chunks PErr IErr text_to_phonemes tokenize infer lan styles speed
                                 initial_silence chunks []
       end).
Proof.
  split.
  - intros. apply split_text_into_chunks_ok.
  - intros. eexists. split; [apply split_text_into_chunks_ok|reflexivity].
Qed.

(** C3.  Without [+], [mix_styles] fails exactly when the name is absent;
    with [+] it never fails, and a segment [name.w] whose name is absent
    from the table contributes nothing wherever it stands: appended at the
    end ([s+name.w] as [s]), in the middle ([a+name.w+b] as [a+b]), in front
    ([name.w+s] as [s]), and beside a single segment [t] ([name.w+t] and
    [t+name.w] both give the contribution of [t] alone). *)
Theorem mix_styles_unknown_asymmetry (parse_f32 : string -> option Q)
    (styles : Styles.style_table) :
  (forall style_name, Str.contains "+" style_name = false ->
     ((exists msg, Styles.mix_styles parse_f32 styles style_name = Err msg) <->
      styles !! style_name = None)) /\
  (forall style_name, Str.contains "+" style_name = true ->
     exists v, Styles.mix_styles parse_f32 styles style_name = Ok v) /\
  (forall style_name name w,
     Str.contains "+" style_name = true -> styles !! name = None ->
     Str.contains "." name = false -> Str.contains "+" name = false ->
     Str.contains "+" w = false ->
     Styles.mix_styles parse_f32 styles
       (String.append style_name (String "+" (String.append name (String "." w)))) =
     Styles.mix_styles parse_f32 styles style_name) /\
  (forall a b name w,
     styles !! name = None ->
     Str.contains "." name = false -> Str.contains "+" name = false ->
     Str.contains "+" w = false ->
     Styles.mix_styles parse_f32 styles
       (String.append a (String "+" (String.append (String.append name (String "." w)) (String "+" b)))) =
     Styles.mix_styles parse_f32 styles (String.append a (String "+" b))) /\
  (forall style_name name w,
     Str.contains "+" style_name = true -> styles !! name = None ->
     Str.contains "." name = false -> Str.contains "+" name = false ->
     Str.contains "+" w = false ->
     Styles.mix_styles parse_f32 styles
       (String.append (String.append name (String "." w)) (String "+" style_name)) =
     Styles.mix_styles parse_f32 styles style_name) /\
  (forall t name w,
     Str.contains "+" t = false -> styles !! name = None ->
     Str.contains "." name = false -> Str.contains "+" name = false ->
     Str.contains "+" w = false ->
     exists v,
       Styles.mix_styles parse_f32 styles
         (String.append (String.append name (String "." w)) (String "+" t)) = Ok [v] /\
       Styles.mix_styles parse_f32 styles
         (String.append t (String "+" (String.append name (String "." w)))) = Ok [v] /\
       length v = 256 /\
       forall j, j < 256 -> nth j v 0%Q = BlendSpec.blend_coord parse_f32 styles [t] j).
Proof.
  split; [|split; [|split; [|split; [|split]]]].
  - intros style_name Hc. unfold Styles.mix_styles. rewrite Hc. simpl.
    destruct (styles !! style_name); split.
    + intros [msg H]; discriminate.
    + discriminate.
    + reflexivity.
    + intros _. eexists. reflexivity.
  - intros style_name Hc.
    destruct (MixFacts.mix_styles_blend parse_f32 styles style_name Hc) as [v [Hv _]].
    eexists. exact Hv.
  - intros. apply MixAppend.mix_styles_absent_segment; assumption.
  - intros. apply MixAppend.mix_styles_absent_middle; assumption.
  - intros. apply MixAppend.mix_styles_absent_leading; assumption.
  - intros. apply MixAppend.mix_styles_absent_pair; assumption.
Qed.

(** C4.  A blended specification resolves to one 256-vector whose
    coordinate [j] is the sum, from a zero accumulator, of
    [style[j] * (w * 0.1)] over the segments [name.w] whose weight parses
    and whose name is in the table (no renormalisation); on
    ["a.5+b.5"] with unit vectors [a], [b] this is [[0.5; 0.5; 0; ...]],
    and on ["a.3+b.3"] it is [[0.3; 0.3; 0; ...]]. *)
Theorem mix_styles_blend_sum :
  (forall (parse_f32 : string -> option Q) (styles : Styles.style_table) (style_name : string),
     Str.contains "+" style_name = true ->
     exists v, Styles.mix_styles parse_f32 styles style_name = Ok [v] /\ length v = 256 /\
       forall j, j < 256 ->
         nth j v 0%Q = BlendSpec.blend_coord parse_f32 styles (Str.split is_plus style_name) j) /\
  (exists v, Styles.mix_styles parse_digits ab_table "a.5+b.5" = Ok [v] /\
             map Qred v = [1 # 2; 1 # 2] ++ repeat 0%Q 254) /\
  (exists v, Styles.mix_styles parse_digits ab_table "a.3+b.3" = Ok [v] /\
             map Qred v = [3 # 10; 3 # 10] ++ repeat 0%Q 254).
Proof.
  split; [|split].
  - intros. apply MixFacts.mix_styles_blend. assumption.
  - eexists. split; [vm_compute; reflexivity|]. vm_compute. reflexivity.
  - eexists. split; [vm_compute; reflexivity|]. vm_compute. reflexivity.
Qed.

(** C5 (counterexample).  The filter at phase shift 0 is not the identity:
    on the buffer [[1]] it returns [[0]]. *)
Lemma apply_phase_shift_zero_not_identity :
  apply_phase_shift [1%Q] 0 <> [1%Q].
Proof. vm_compute. intros H. injection H as H. discriminate. Qed.

(** C5 (amended).  With stereo output and phase shift 0, [tts] writes every
    sample twice (right channel = left channel); [apply_phase_shift] at 0
    returns an all-zero buffer of the same length. *)
Theorem stereo_zero_shift_duplicates :
  forall audio : list Q,
    wav_samples audio false 0 = flat_map (fun sample => [WriteSample sample; WriteSample sample]) audio /\
    length (apply_phase_shift audio 0) = length audio /\
    Forall (fun y => y == 0)%Q (apply_phase_shift audio 0).
Proof.
  intros audio. split; [reflexivity|].
  rewrite PhaseFacts.apply_phase_shift_allpass. split; [apply PhaseFacts.allpass_length|].
  assert (H : forall l y1 x1, y1 == 0 -> Forall (fun y => y == 0)%Q (allpass 0 l y1 x1)).
  { induction l as [|x l IH]; intros y1 x1 Hy; simpl; constructor.
    - rewrite Hy. ring.
    - apply IH. rewrite Hy. ring. }
  apply H. reflexivity.
Qed.

(** C6 (counterexample).  Without a style file the table is empty, yet a
    blended specification still resolves, to the zero vector. *)
Lemma empty_table_blend_resolves :
  Voices.new_styles (E := unit) (Err tt) = Some ∅ /\
  Styles.mix_styles parse_digits ∅ "a.5+b.5" = Ok [Styles.zeros].
Proof. split; reflexivity. Qed.

(** C6 (amended).  A style file that cannot be loaded leaves an empty table
    and construction succeeds; afterwards a single name always fails and a
    blended specification resolves to the zero vector. *)
Theorem load_failure_empty_table {E} (e : E) (parse_f32 : string -> option Q) (style_name : string) :
  Voices.new_styles (Err e) = Some ∅ /\
  Styles.mix_styles parse_f32 ∅ style_name =
  (if Str.contains "+" style_name then Ok [Styles.zeros]
   else Err (String.append "can not found from styles_map: " style_name)).
Proof.
  split; [reflexivity|].
  destruct (Str.contains "+" style_name) eqn:Hc.
  - destruct (MixFacts.mix_styles_blend parse_f32 ∅ style_name Hc) as [v [Hv [Hl Hj]]].
    rewrite Hv. do 2 f_equal.
    apply (nth_ext v Styles.zeros 0%Q 0%Q); [exact Hl|].
    intros j Hjl. rewrite Hl in Hjl. rewrite Hj by exact Hjl.
    unfold Styles.zeros. rewrite nth_repeat. unfold BlendSpec.blend_coord.
    generalize (Str.split is_plus style_name) as segs.
    induction segs as [|seg segs IH]; simpl; [reflexivity|].
    unfold BlendSpec.segment_delta at 2.
    destruct (Str.split_once "." seg) as [[name w]|]; [|exact IH].
    rewrite lookup_empty. destruct (parse_f32 w); exact IH.
  - unfold Styles.mix_styles. rewrite Hc. reflexivity.
Qed.




(** C8.  [apply_phase_shift audio k] has the length of [audio] and follows
    [y[n] = k*x[n] + y[n-1] - k*x[n-1]] with [y[-1] = x[-1] = 0]; in the
    stereo path with a non-zero shift the left samples (even positions) are
    the original ones and the right samples (odd positions) the filtered ones. *)
Theorem apply_phase_shift_recurrence (audio : list Q) (k : Q) :
  let y := apply_phase_shift audio k in
  length y = length audio /\
  (forall n, n < length audio ->
     nth n y 0%Q = (k * nth n audio 0
                    + match n with O => 0 | S m => nth m y 0 end
                    - k * match n with O => 0 | S m => nth m audio 0 end)%Q) /\
  (Qeq_bool k 0 = false ->
     length (wav_samples audio false k) = 2 * length audio /\
     forall i, i < length audio ->
       nth (2 * i) (wav_samples audio false k) Finalize = WriteSample (nth i audio 0%Q) /\
       nth (2 * i + 1) (wav_samples audio false k) Finalize = WriteSample (nth i y 0%Q)).
Proof.
  intros y. unfold y. rewrite PhaseFacts.apply_phase_shift_allpass.
  split; [apply PhaseFacts.allpass_length|]. split.
  - intros n Hn. apply PhaseFacts.allpass_nth. exact Hn.
  - intros Hk. unfold wav_samples. rewrite Hk. simpl negb. cbv iota.
    rewrite PhaseFacts.apply_phase_shift_allpass. split.
    + rewrite (PhaseFacts.flat_map_pair_length (fun i => WriteSample (nth i audio 0%Q))
                 (fun i => WriteSample (nth i (allpass k audio 0 0) 0%Q))).
      rewrite length_seq. reflexivity.
    + intros i Hi. apply (PhaseFacts.interleave_nth
        (fun i => WriteSample (nth i audio 0%Q))
        (fun i => WriteSample (nth i (allpass k audio 0 0) 0%Q)) 0 (length audio) i Finalize Hi).
Qed.

Lemma apply_phase_shift_recurrence_witness :
  Qeq_bool (1 # 2) 0 = false /\ 0 < length [1; 2]%Q /\
  nth 0 (apply_phase_shift [1; 2]%Q (1 # 2)) 0%Q = ((1 # 2) * 1 + 0 - (1 # 2) * 0)%Q /\
  nth 1 (wav_samples [1; 2]%Q false (1 # 2)) Finalize =
  WriteSample (nth 0 (apply_phase_shift [1; 2]%Q (1 # 2)) 0%Q).
Proof.
  split; [reflexivity|]. split; [simpl; lia|]. split.
  - apply (proj1 (proj2 (apply_phase_shift_recurrence [1; 2]%Q (1 # 2))) 0). simpl. lia.
  - apply (proj2 (proj2 (proj2 (apply_phase_shift_recurrence [1; 2]%Q (1 # 2))) eq_refl) 0).
    simpl. lia.
Defined.

(** C9.  [main] constructs one inference instance in the CLI modes whatever
    [--instances] says, and exactly [instances] of them in server mode. *)
Theorem main_instance_count (m : Main.mode) (model_path data_path : string) (instances : nat) :
  length (Main.instances_created m model_path data_path instances) =
  match m with Main.OpenAI _ _ => instances | _ => 1 end.
Proof.
  destruct m; try reflexivity. unfold Main.instances_created. rewrite app_nil_l, length_map, length_seq. reflexivity.

Qed.

(** C10.  The chunk plan does not depend on the request's language: the
    planner phonemizes with ["en"] only, a failed measurement counts as the
    empty phoneme string (zero tokens for the tokenizer contract), and
    [tts_raw_audio] phonemizes the planned chunks with the caller's language. *)
Theorem chunk_plan_language_independent :
  (forall PErr (P P' : string -> string -> result (list string) PErr)
          (tokenize : string -> list nat) (text : string) (max_tokens : nat),
     (forall s, P "en" s = P' "en" s) ->
     split_text_into_chunks PErr P tokenize text max_tokens =
     split_text_into_chunks PErr P' tokenize text max_tokens) /\
  (forall PErr (P : string -> string -> result (list string) PErr)
          (tokenize : string -> list nat) (s : string) (e : PErr),
     P "en" s = Err e -> en_token_count PErr P tokenize s = length (tokenize "")) /\
  (forall PErr (P : string -> string -> result (list string) PErr)
          (symbol_index : ascii -> option nat) (s : string) (e : PErr),
     P "en" s = Err e -> en_token_count PErr P (spec_tokenize symbol_index) s = 0) /\
  (forall PErr IErr (P : string -> string -> result (list string) PErr)
          (tokenize : string -> list nat)
          (infer : list (list nat) -> list (list Q) -> Q -> result (list Q) IErr)
          (parse_f32 : string -> option Q) (table : Styles.style_table)
          (txt lan style_name : string) (speed : Q) (initial_silence : option nat),
     tts_raw_audio PErr IErr P tokenize infer parse_f32 table txt lan style_name speed initial_silence =
     match Styles.mix_styles parse_f32 table style_name with
     | Err msg => Err (StyleError msg)
     | Ok styles => run_chunks PErr IErr P tokenize infer lan styles speed initial_silence
                      (split_text_into_chunks PErr P tokenize txt 500) []
     end).
Proof.
  split; [|split; [|split]].
  - intros. apply EngineFacts.split_text_into_chunks_en_only. assumption.
  - intros PErr P tokenize s e He. unfold en_token_count. rewrite He. reflexivity.
  - intros PErr P symbol_index s e He. unfold en_token_count. rewrite He. reflexivity.
  - intros. reflexivity.
Qed.

Lemma mix_styles_unknown_asymmetry_witness :
  (exists msg, Styles.mix_styles parse_digits ab_table "c" = Err msg) /\
  (exists v, Styles.mix_styles parse_digits ab_table "a.5+c.5" = Ok v) /\
  Styles.mix_styles parse_digits ab_table "a.5+b.5+c.5" =
  Styles.mix_styles parse_digits ab_table "a.5+b.5" /\
  Styles.mix_styles parse_digits ab_table "a.5+c.5+b.5" =
  Styles.mix_styles parse_digits ab_table "a.5+b.5" /\
  Styles.mix_styles parse_digits ab_table "c.5+a.5+b.5" =
  Styles.mix_styles parse_digits ab_table "a.5+b.5" /\
  (exists v,
     Styles.mix_styles parse_digits ab_table "c.5+a.5" = Ok [v] /\
     Styles.mix_styles parse_digits ab_table "a.5+c.5" = Ok [v] /\
     length v = 256 /\
     forall j, j < 256 -> nth j v 0%Q = BlendSpec.blend_coord parse_digits ab_table ["a.5"] j) /\
  (exists v, Styles.mix_styles parse_digits ab_table "a.5+c.5" = Ok [v] /\
             map Qred v = [1 # 2] ++ repeat 0%Q 255).
Proof.
  destruct (mix_styles_unknown_asymmetry parse_digits ab_table)
    as [H1 [H2 [H3 [H4 [H5 H6]]]]].
  split; [|split; [|split; [|split; [|split; [|split]]]]].
  - apply (H1 "c" eq_refl). vm_compute. reflexivity.
  - apply (H2 "a.5+c.5"). vm_compute. reflexivity.
  - apply (H3 "a.5+b.5" "c" "5"); vm_compute; reflexivity.
  - apply (H4 "a.5" "b.5" "c" "5"); vm_compute; reflexivity.
  - apply (H5 "a.5+b.5" "c" "5"); vm_compute; reflexivity.
  - apply (H6 "a.5" "c" "5"); vm_compute; reflexivity.
  - eexists. split; [vm_compute; reflexivity|]. vm_compute. reflexivity.
Defined.

Lemma mix_styles_blend_sum_witness :
  Str.contains "+" "a.5+b.5" = true /\
  exists v, Styles.mix_styles parse_digits ab_table "a.5+b.5" = Ok [v] /\ length v = 256 /\
    nth 0 v 0%Q = BlendSpec.blend_coord parse_digits ab_table (Str.split is_plus "a.5+b.5") 0.
Proof.
  split; [vm_compute; reflexivity|].
  destruct (proj1 mix_styles_blend_sum parse_digits ab_table "a.5+b.5" eq_refl) as [v [H1 [H2 H3]]].
  exists v. split; [exact H1|]. split; [exact H2|]. apply H3. lia.
Defined.

Lemma chunk_plan_language_independent_witness :
  split_text_into_chunks unit echo_phonemes char_tokens "Hi. How are you?" 5 =
  split_text_into_chunks unit english_only char_tokens "Hi. How are you?" 5 /\
  en_token_count unit (fun _ _ => Err tt) char_tokens "Hello." = length (char_tokens "") /\
  en_token_count unit (fun _ _ => Err tt) (spec_tokenize (fun _ => Some 1)) "Hello." = 0.
Proof.
  split; [|split].
  - apply (proj1 chunk_plan_language_independent). intros s. reflexivity.
  - apply (proj1 (proj2 chunk_plan_language_independent) unit (fun _ _ => Err tt) char_tokens
             "Hello." tt). reflexivity.
  - apply (proj1 (proj2 (proj2 chunk_plan_language_independent)) unit (fun _ _ => Err tt)
             (fun _ => Some 1) "Hello." tt). reflexivity.
Defined.

(** * Further properties of the code *)

(** ** Words and characters of the planned chunks *)

Module PlannerWords.

Lemma split_whitespace_empty : Str.split_whitespace "" = [].
Proof. reflexivity. Qed.

Lemma split_whitespace_space_join (a b : string) :
  Str.split_whitespace (Str.space_join a b) = Str.split_whitespace a ++ Str.split_whitespace b.
Proof.
  unfold Str.split_whitespace, Str.space_join.
  rewrite MixAppend.split_app_sep by reflexivity. apply List.filter_app.
Qed.

Lemma split_whitespace_is_empty (s : string) :
  Str.is_empty s = true -> Str.split_whitespace s = [].
Proof. destruct s; [reflexivity|discriminate]. Qed.

Section Words.
Variable PErr : Type.
Variable text_to_phonemes : string -> string -> result (list string) PErr.
Variable tokenize : string -> list nat.
Variable max_tokens : nat.

Local Abbreviation wstep := (word_step PErr text_to_phonemes tokenize max_tokens).
Local Abbreviation sstep := (sentence_step PErr text_to_phonemes tokenize max_tokens).

(** The word loop keeps its words in order. *)
Lemma word_loop_words (words : list string) (chunks : list string) (wc : string) :
  Forall (fun w => Str.split_whitespace w = [w]) words ->
  let '(chunks', wc') := fold_left wstep words (chunks, wc) in
  chunk_words chunks' ++ Str.split_whitespace wc' =
  chunk_words chunks ++ Str.split_whitespace wc ++ words.
Proof.
  revert chunks wc. induction words as [|w words IH]; intros chunks wc Hw; cbn [fold_left].
  - rewrite app_nil_r. reflexivity.
  - inversion Hw as [|? ? Hw1 Hws]; subst.
    pose proof (IH (fst (wstep (chunks, wc) w)) (snd (wstep (chunks, wc) w)) Hws) as H.
    rewrite <- surjective_pairing in H.
    destruct (fold_left wstep words (wstep (chunks, wc) w)) as [c' w'].
    rewrite H. clear H. unfold word_step.
    destruct (Str.is_empty wc) eqn:He.
    + rewrite (split_whitespace_is_empty wc He).
      destruct (Nat.ltb _ _); simpl; rewrite Hw1; reflexivity.
    + destruct (Nat.ltb _ _); simpl.
      * unfold chunk_words. rewrite flat_map_app. simpl. rewrite Hw1, !app_nil_r, <- app_assoc.
        reflexivity.
      * rewrite split_whitespace_space_join, Hw1, <- !app_assoc. reflexivity.
Qed.

Lemma over_budget_words (chunks : list string) (sentence : string) :
  let '(chunks', word_chunk) := fold_left wstep (Str.split_whitespace sentence) (chunks, "") in
  chunk_words (if Str.is_empty word_chunk then chunks' else chunks' ++ [word_chunk]) =
  chunk_words chunks ++ Str.split_whitespace sentence.
Proof.
  pose proof (word_loop_words (Str.split_whitespace sentence) chunks "") as H.
  specialize (H (proj2 (List.Forall_forall _ _)
                   (fun x Hx => StrFacts.split_whitespace_word sentence x Hx))).
  destruct (fold_left _ _ _) as [c' w'].
  cbv beta iota in H |- *. rewrite split_whitespace_empty in H. simpl in H.
  destruct (Str.is_empty w') eqn:He.
  - rewrite (split_whitespace_is_empty w' He), app_nil_r in H. exact H.
  - unfold chunk_words at 1. rewrite flat_map_app. simpl. rewrite app_nil_r. exact H.
Qed.

(** Nothing is lost or duplicated: the words of the chunks are a
    permutation of the words of the period-terminated sentences. *)
Lemma split_text_into_chunks_words_perm (text : string) :
  Permutation (chunk_words (split_text_into_chunks PErr text_to_phonemes tokenize text max_tokens))
              (sentence_words text).
Proof.
  unfold split_text_into_chunks, sentence_words.
  assert (Hgen : forall raws chunks cur,
    let '(c, w) := fold_left sstep raws (chunks, cur) in
    Permutation (chunk_words c ++ Str.split_whitespace w)
      (chunk_words chunks ++ Str.split_whitespace cur ++
       flat_map (fun raw => Str.split_whitespace (Str.with_period (Str.trim raw))) raws)).
  { induction raws as [|raw raws IH]; intros chunks cur; cbn [fold_left flat_map].
    - rewrite app_nil_r. reflexivity.
    - pose proof (IH (fst (sstep (chunks, cur) raw)) (snd (sstep (chunks, cur) raw))) as H.
      rewrite <- surjective_pairing in H.
      destruct (fold_left sstep raws (sstep (chunks, cur) raw)) as [c w].
      rewrite H. clear H. rewrite !app_assoc. apply Permutation_app_tail.
      unfold sentence_step.
      set (sentence := Str.with_period (Str.trim raw)).
      destruct (Nat.ltb max_tokens _).
      + pose proof (over_budget_words chunks sentence) as Hs.
        destruct (fold_left wstep _ _) as [c' w'].
        simpl. rewrite Hs. rewrite <- !app_assoc. apply Permutation_app_head.
        apply Permutation_app_comm.
      + destruct (negb (Str.is_empty cur)) eqn:Hne.
        * destruct (Nat.ltb max_tokens _); simpl.
          -- unfold chunk_words. rewrite flat_map_app. simpl. rewrite app_nil_r. reflexivity.
          -- rewrite split_whitespace_space_join, app_assoc. reflexivity.
        * simpl. apply negb_false_iff in Hne.
          rewrite (split_whitespace_is_empty cur Hne), app_nil_r. reflexivity. }
  pose proof (Hgen (sentences text) [] "") as H.
  destruct (fold_left _ _ _) as [c w]. simpl in H.
  destruct (Str.is_empty w) eqn:He.
  - rewrite (split_whitespace_is_empty w He), app_nil_r in H. exact H.
  - unfold chunk_words at 1. rewrite flat_map_app. simpl. rewrite app_nil_r. exact H.
Qed.

End Words.

End PlannerWords.

Module PlannerMore.
Import PlannerWords.

Local Abbreviation chars := list_ascii_of_string.

Lemma split_chars (p : ascii -> bool) (s w : string) (c : ascii) :
  In w (Str.split p s) -> In c (chars w) -> In c (chars s).
Proof.
  revert w. induction s as [|d s IH]; simpl; intros w Hin Hc.
  - destruct Hin as [<-|[]]. contradiction.
  - destruct (p d).
    + destruct Hin as [<-|Hin]; [contradiction|]. right. eauto.
    + destruct (Str.split p s) as [|h t] eqn:Hs.
      * destruct Hin as [<-|[]]. simpl in Hc. destruct Hc as [->|[]]. left; reflexivity.
      * destruct Hin as [<-|Hin].
        -- simpl in Hc. destruct Hc as [->|Hc]; [left; reflexivity|].
           right. apply (IH h); [left; reflexivity|exact Hc].
        -- right. apply (IH w); [right; exact Hin|exact Hc].
Qed.

Lemma trim_start_chars (s : string) (c : ascii) :
  In c (chars (Str.trim_start s)) -> In c (chars s).
Proof.
  induction s as [|d s IH]; simpl; [tauto|].
  destruct (Str.is_whitespace d); [intros H; right; exact (IH H)|tauto].
Qed.

Lemma rev_str_chars (s : string) : chars (Str.rev_str s) = rev (chars s).
Proof. unfold Str.rev_str. apply list_ascii_of_string_of_list_ascii. Qed.

Lemma trim_chars (s : string) (c : ascii) :
  In c (chars (Str.trim s)) -> In c (chars s).
Proof.
  unfold Str.trim, Str.trim_end. intros H.
  rewrite rev_str_chars, <- in_rev in H. apply trim_start_chars in H.
  rewrite rev_str_chars, <- in_rev in H. apply trim_start_chars in H. exact H.
Qed.

Lemma split_whitespace_chars (s w : string) (c : ascii) :
  In w (Str.split_whitespace s) -> In c (chars w) -> In c (chars s).
Proof.
  unfold Str.split_whitespace. intros Hw. apply filter_In in Hw as [Hw _].
  apply split_chars with (1 := Hw).
Qed.

(** A piece ending in a non-separator is not empty. *)
Lemma split_last_nonempty (p : ascii -> bool) (s : string) (c : ascii) :
  p c = false -> exists w, In w (Str.split p (s ++ String c "")) /\ Str.is_empty w = false.
Proof.
  intros Hc. induction s as [|d s IH]; simpl.
  - rewrite Hc. exists (String c ""). split; [left; reflexivity|reflexivity].
  - destruct IH as [w [Hw Hne]]. destruct (p d).
    + exists w. split; [right; exact Hw|exact Hne].
    + destruct (Str.split p (s ++ String c "")) as [|h t].
      * destruct Hw.
      * destruct Hw as [Hw|Hw].
        -- subst h. exists (String d w). split; [left; reflexivity|reflexivity].
        -- exists w. split; [right; exact Hw|exact Hne].
Qed.

Lemma split_whitespace_with_period (s : string) :
  Str.split_whitespace (Str.with_period s) <> [].
Proof.
  unfold Str.split_whitespace, Str.with_period.
  destruct (split_last_nonempty Str.is_whitespace s "." eq_refl) as [w [Hw Hne]].
  intros H. assert (Hin : In w (List.filter (fun w => negb (Str.is_empty w))
                                 (Str.split Str.is_whitespace (s ++ ".")))).
  { apply filter_In. split; [exact Hw|rewrite Hne; reflexivity]. }
  rewrite H in Hin. destruct Hin.
Qed.

Lemma no_other_terminal_chars (s : string) :
  no_other_terminal s = true <-> forall c, In c (chars s) -> plain_char c = true.
Proof. unfold no_other_terminal. apply forallb_forall. Qed.

Lemma no_other_terminal_space_join (a b : string) :
  no_other_terminal a = true -> no_other_terminal b = true ->
  no_other_terminal (Str.space_join a b) = true.
Proof.
  unfold no_other_terminal, Str.space_join. intros Ha Hb.
  rewrite MixAppend.list_ascii_of_string_app, forallb_app, Ha. exact Hb.
Qed.

Lemma no_other_terminal_with_period (s : string) :
  no_other_terminal s = true -> no_other_terminal (Str.with_period s) = true.
Proof.
  unfold no_other_terminal, Str.with_period. intros Hs.
  rewrite MixAppend.list_ascii_of_string_app, forallb_app, Hs. reflexivity.
Qed.

Lemma sentence_piece_plain (text raw : string) :
  In raw (sentences text) -> no_other_terminal (Str.trim raw) = true.
Proof.
  unfold sentences. intros H. apply filter_In in H as [H _].
  apply no_other_terminal_chars. intros c Hc. apply trim_chars in Hc.
  pose proof (StrFacts.split_no_sep is_sentence_end text raw H c Hc) as Hp.
  destruct (plain_char c) eqn:Hpc; [reflexivity|].
  unfold plain_char in Hpc. unfold is_sentence_end in Hp.
  destruct c as [[] [] [] [] [] [] [] []]; cbn in Hpc, Hp; congruence.
Qed.

Section More.
Variable PErr : Type.
Variable text_to_phonemes : string -> string -> result (list string) PErr.
Variable tokenize : string -> list nat.
Variable max_tokens : nat.

Local Abbreviation count := (en_token_count PErr text_to_phonemes tokenize).
Local Abbreviation wstep := (word_step PErr text_to_phonemes tokenize max_tokens).
Local Abbreviation sstep := (sentence_step PErr text_to_phonemes tokenize max_tokens).

(** When no sentence is over budget, the chunks keep the words in order. *)
Lemma split_text_into_chunks_words_in_order (text : string) :
  Forall (fun raw => count (Str.with_period (Str.trim raw)) <= max_tokens) (sentences text) ->
  chunk_words (split_text_into_chunks PErr text_to_phonemes tokenize text max_tokens) =
  sentence_words text.
Proof.
  intros Hall. unfold split_text_into_chunks, sentence_words.
  assert (Hgen : forall raws chunks cur,
    Forall (fun raw => count (Str.with_period (Str.trim raw)) <= max_tokens) raws ->
    let '(c, w) := fold_left sstep raws (chunks, cur) in
    chunk_words c ++ Str.split_whitespace w =
    chunk_words chunks ++ Str.split_whitespace cur ++
    flat_map (fun raw => Str.split_whitespace (Str.with_period (Str.trim raw))) raws).
  { induction raws as [|raw raws IH]; intros chunks cur Hr; cbn [fold_left flat_map].
    - rewrite app_nil_r. reflexivity.
    - inversion Hr as [|? ? Hr1 Hrs]; subst.
      pose proof (IH (fst (sstep (chunks, cur) raw)) (snd (sstep (chunks, cur) raw)) Hrs) as H.
      rewrite <- surjective_pairing in H.
      destruct (fold_left sstep raws (sstep (chunks, cur) raw)) as [c w].
      rewrite H. clear H. rewrite !app_assoc. f_equal.
      unfold sentence_step.
      replace (Nat.ltb max_tokens (count (Str.with_period (Str.trim raw)))) with false
        by (symmetry; apply Nat.ltb_ge; exact Hr1).
      destruct (negb (Str.is_empty cur)) eqn:Hne.
      + destruct (Nat.ltb max_tokens _); simpl.
        * unfold chunk_words. rewrite flat_map_app. simpl. rewrite app_nil_r. reflexivity.
        * rewrite split_whitespace_space_join, app_assoc. reflexivity.
      + simpl. apply negb_false_iff in Hne.
        rewrite (split_whitespace_is_empty cur Hne), app_nil_r. reflexivity. }
  pose proof (Hgen (sentences text) [] "" Hall) as H.
  destruct (fold_left _ _ _) as [c w]. simpl in H.
  destruct (Str.is_empty w) eqn:He.
  - rewrite (split_whitespace_is_empty w He), app_nil_r in H. exact H.
  - unfold chunk_words at 1. rewrite flat_map_app. simpl. rewrite app_nil_r. exact H.
Qed.

(** A text without a non-blank sentence gives no chunk. *)
Lemma split_text_into_chunks_blank (text : string) :
  (forall piece, In piece (Str.split is_sentence_end text) -> Str.is_empty (Str.trim piece) = true) ->
  split_text_into_chunks PErr text_to_phonemes tokenize text max_tokens = [].
Proof.
  intros H. unfold split_text_into_chunks.
  replace (sentences text) with (@nil string); [reflexivity|].
  unfold sentences. induction (Str.split is_sentence_end text) as [|p ps IH]; [reflexivity|].
  simpl. rewrite (H p (or_introl eq_refl)). simpl.
  apply IH. intros q Hq. apply H. right. exact Hq.
Qed.

(** Any property of strings closed under [space_join] and held by every
    planned sentence and each of its words holds for every chunk. *)
Lemma chunks_closed (G : string -> Prop) (text : string) :
  (forall a b, G a -> G b -> G (Str.space_join a b)) ->
  (forall raw, In raw (sentences text) ->
     G (Str.with_period (Str.trim raw)) /\ Forall G (Str.split_whitespace (Str.with_period (Str.trim raw)))) ->
  Forall G (split_text_into_chunks PErr text_to_phonemes tokenize text max_tokens).
Proof.
  intros Hjoin Hsent. unfold split_text_into_chunks.
  set (I := fun st : list string * string =>
              let '(c, w) := st in Forall G c /\ (Str.is_empty w = true \/ G w)).
  assert (Hword : forall words st, Forall G words -> I st -> I (fold_left wstep words st)).
  { intros words st Hw Hst. apply (fold_left_invariant _ I G); [|exact Hw|exact Hst].
    intros [c w] a [Hc Hw'] Ha. unfold word_step.
    assert (Ht : G (if Str.is_empty w then a else Str.space_join w a)).
    { destruct (Str.is_empty w) eqn:He; [exact Ha|].
      destruct Hw' as [Hw'|Hw']; [congruence|]. apply Hjoin; assumption. }
    destruct (Nat.ltb max_tokens _).
    - split; [|right; exact Ha].
      destruct (Str.is_empty w) eqn:He; [exact Hc|].
      apply Forall_app; split; [exact Hc|]. constructor; [|constructor].
      destruct Hw' as [Hw'|Hw']; [congruence|exact Hw'].
    - split; [exact Hc|right; exact Ht]. }
  assert (HI : I (fold_left sstep (sentences text) ([], ""))).
  { apply (fold_left_invariant _ I (fun raw => G (Str.with_period (Str.trim raw)) /\
             Forall G (Str.split_whitespace (Str.with_period (Str.trim raw)))));
      [| apply List.Forall_forall; exact Hsent | split; [constructor|left; reflexivity]].
    intros [c w] raw [Hc Hw] [Hs Hws]. unfold sentence_step.
    destruct (Nat.ltb max_tokens _).
    - pose proof (Hword (Str.split_whitespace (Str.with_period (Str.trim raw))) (c, "") Hws
                    (conj Hc (or_introl eq_refl))) as Hl.
      destruct (fold_left _ _ _) as [c' w']. destruct Hl as [Hc' Hw'].
      split; [|exact Hw].
      destruct (Str.is_empty w') eqn:He; [exact Hc'|].
      apply Forall_app; split; [exact Hc'|]. constructor; [|constructor].
      destruct Hw' as [Hw'|Hw']; [congruence|exact Hw'].
    - destruct (negb (Str.is_empty w)) eqn:Hne.
      + assert (Gw : G w) by (destruct Hw as [Hw|Hw]; [rewrite Hw in Hne; discriminate|exact Hw]).
        destruct (Nat.ltb max_tokens _).
        * split; [|right; exact Hs].
          apply Forall_app; split; [exact Hc|]. constructor; [exact Gw|constructor].
        * split; [exact Hc|]. right. apply Hjoin; assumption.
      + split; [exact Hc|right; exact Hs]. }
  destruct (fold_left _ _ _) as [c w]. destruct HI as [Hc Hw].
  destruct (Str.is_empty w) eqn:He; [exact Hc|].
  apply Forall_app; split; [exact Hc|]. constructor; [|constructor].
  destruct Hw as [Hw|Hw]; [congruence|exact Hw].
Qed.

(** Every chunk holds at least one word: no chunk is blank. *)
Lemma split_text_into_chunks_no_blank (text : string) :
  Forall (fun c => Str.split_whitespace c <> [])
         (split_text_into_chunks PErr text_to_phonemes tokenize text max_tokens).
Proof.
  apply chunks_closed.
  - intros a b Ha Hb. rewrite split_whitespace_space_join.
    destruct (Str.split_whitespace a); [contradiction|discriminate].
  - intros raw _. split; [apply split_whitespace_with_period|].
    apply List.Forall_forall. intros w Hw.
    rewrite (StrFacts.split_whitespace_word _ _ Hw). discriminate.
Qed.

(** No chunk contains '?', '!' or ';': they only end sentences. *)
Lemma split_text_into_chunks_no_other_terminal (text : string) :
  Forall (fun c => no_other_terminal c = true)
         (split_text_into_chunks PErr text_to_phonemes tokenize text max_tokens).
Proof.
  apply chunks_closed.
  - apply no_other_terminal_space_join.
  - intros raw Hraw.
    pose proof (no_other_terminal_with_period _ (sentence_piece_plain text raw Hraw)) as Hs.
    split; [exact Hs|].
    apply List.Forall_forall. intros w Hw. apply no_other_terminal_chars.
    intros c Hc. apply (proj1 (no_other_terminal_chars _) Hs).
    exact (split_whitespace_chars _ _ _ Hw Hc).
Qed.

End More.

Lemma split_text_into_chunks_words_in_order_witness :
  Forall (fun raw => en_token_count unit echo_phonemes char_tokens (Str.with_period (Str.trim raw)) <= 40)
         (sentences "Hi there. How are you? Fine!") /\
  chunk_words (split_text_into_chunks unit echo_phonemes char_tokens "Hi there. How are you? Fine!" 40) =
  sentence_words "Hi there. How are you? Fine!".
Proof.
  assert (H : Forall (fun raw => en_token_count unit echo_phonemes char_tokens (Str.with_period (Str.trim raw)) <= 40)
                     (sentences "Hi there. How are you? Fine!")).
  { apply (bool_decide_unpack _). vm_compute. reflexivity. }
  split; [exact H|].
  exact (split_text_into_chunks_words_in_order unit echo_phonemes char_tokens 40 _ H).
Defined.

End PlannerMore.

Module EngineMore.

Section WithEngine.
Variables PErr IErr : Type.
Variable text_to_phonemes : string -> string -> result (list string) PErr.
Variable tokenize : string -> list nat.
Variable infer : list (list nat) -> list (list Q) -> Q -> result (list Q) IErr.
Variable parse_f32 : string -> option Q.

Local Abbreviation run := (run_chunks PErr IErr text_to_phonemes tokenize infer).

(** Chunk [c] is inferred to [out]: it phonemizes, and the engine accepts
    its tokens behind the silence tokens. *)
Local Abbreviation chunk_infers lan styles speed sil :=
  (fun c out => exists ph, text_to_phonemes lan c = Ok ph /\
     infer [repeat 30 (default 0 sil) ++ tokenize (Str.join ph)] styles speed = Ok out).

Lemma run_chunks_ok (lan : string) (styles : list (list Q)) (speed : Q) (sil : option nat)
    (chunks : list string) (acc audio : list Q) :
  run lan styles speed sil chunks acc = Ok audio <->
  exists outs, Forall2 (chunk_infers lan styles speed sil) chunks outs /\ audio = acc ++ concat outs.
Proof.
  revert acc. induction chunks as [|c chunks IH]; intros acc; simpl.
  - split.
    + intros H. injection H as <-. exists []. split; [constructor|]. rewrite app_nil_r. reflexivity.
    + intros [outs [Hf ->]]. inversion Hf; subst. simpl. rewrite app_nil_r. reflexivity.
  - destruct (text_to_phonemes lan c) as [ph|pe] eqn:Hp.
    + destruct (infer _ styles speed) as [a|ie] eqn:Hi.
      * rewrite IH. split.
        -- intros [outs [Hf ->]]. exists (a :: outs). split.
           ++ constructor; [exists ph; split; assumption|exact Hf].
           ++ simpl. rewrite app_assoc. reflexivity.
        -- intros [outs [Hf ->]]. inversion Hf as [|? out ? outs' [ph' [Hp' Hi']] Hf']; subst.
           rewrite Hp in Hp'. injection Hp' as <-. rewrite Hi in Hi'. injection Hi' as <-.
           exists outs'. split; [exact Hf'|]. simpl. rewrite app_assoc. reflexivity.
      * split; [discriminate|]. intros [outs [Hf _]].
        inversion Hf as [|? out ? outs' [ph' [Hp' Hi']] Hf']; subst.
        rewrite Hp in Hp'. injection Hp' as <-. congruence.
    + split; [discriminate|]. intros [outs [Hf _]].
      inversion Hf as [|? out ? outs' [ph' [Hp' Hi']] Hf']; subst. congruence.
Qed.

(** [tts_raw_audio] succeeds exactly when the style resolves and every
    chunk of the 500-token plan is inferred; the audio is then the chunk
    outputs concatenated in chunk order. *)
Lemma tts_raw_audio_ok (table : Styles.style_table) (txt lan style_name : string) (speed : Q)
    (sil : option nat) (audio : list Q) :
  tts_raw_audio PErr IErr text_to_phonemes tokenize infer parse_f32 table txt lan style_name speed sil = Ok audio <->
  exists styles, Styles.mix_styles parse_f32 table style_name = Ok styles /\
  exists outs, Forall2 (chunk_infers lan styles speed sil)
                       (split_text_into_chunks PErr text_to_phonemes tokenize txt 500) outs /\
               audio = concat outs.
Proof.
  unfold tts_raw_audio.
  destruct (Styles.mix_styles parse_f32 table style_name) as [styles|msg].
  - rewrite run_chunks_ok. split.
    + intros H. exists styles. split; [reflexivity|exact H].
    + intros [st [Hst H]]. injection Hst as <-. exact H.
  - split; [discriminate|]. intros [st [Hst _]]. discriminate.
Qed.

(** On a text without a non-blank sentence, [tts_raw_audio] calls neither
    the phonemizer on a chunk nor the model: it returns no audio, or the
    style error. *)
Lemma tts_raw_audio_blank (table : Styles.style_table) (txt lan style_name : string) (speed : Q)
    (sil : option nat) :
  (forall piece, In piece (Str.split is_sentence_end txt) -> Str.is_empty (Str.trim piece) = true) ->
  tts_raw_audio PErr IErr text_to_phonemes tokenize infer parse_f32 table txt lan style_name speed sil =
  match Styles.mix_styles parse_f32 table style_name with
  | Ok _ => Ok []
  | Err msg => Err (StyleError msg)
  end.
Proof.
  intros H. unfold tts_raw_audio.
  rewrite (PlannerMore.split_text_into_chunks_blank PErr text_to_phonemes tokenize 500 txt H).
  destruct (Styles.mix_styles parse_f32 table style_name); reflexivity.
Qed.


End WithEngine.

Lemma tts_raw_audio_blank_witness :
  (forall piece, In piece (Str.split is_sentence_end " ?! ; ") -> Str.is_empty (Str.trim piece) = true) /\
  tts_raw_audio unit unit echo_phonemes char_tokens failing_infer parse_digits ab_table
    " ?! ; " "en" "a" 1 None = Ok [].
Proof.
  assert (H : forall piece, In piece (Str.split is_sentence_end " ?! ; ") -> Str.is_empty (Str.trim piece) = true).
  { intros piece Hin. vm_compute in Hin.
    repeat (destruct Hin as [<-|Hin]; [vm_compute; reflexivity|]). destruct Hin. }
  split; [exact H|].
  rewrite (tts_raw_audio_blank unit unit echo_phonemes char_tokens failing_infer parse_digits ab_table
             " ?! ; " "en" "a" 1 None H).
  vm_compute. reflexivity.
Defined.

End EngineMore.

Module PhaseMore.

Lemma allpass_prefix (k : Q) (a b : list Q) (y1 x1 : Q) :
  firstn (length a) (allpass k (a ++ b) y1 x1) = allpass k a y1 x1.
Proof.
  revert y1 x1. induction a as [|x a IH]; intros y1 x1; simpl; [reflexivity|].
  f_equal. apply IH.
Qed.

(** The filter is causal and keeps the length: the first [length a]
    outputs on [a ++ b] are its outputs on [a] alone. *)
Lemma apply_phase_shift_causal (a b : list Q) (k : Q) :
  firstn (length a) (apply_phase_shift (a ++ b) k) = apply_phase_shift a k /\
  length (apply_phase_shift a k) = length a.
Proof.
  rewrite !PhaseFacts.apply_phase_shift_allpass. split.
  - apply allpass_prefix.
  - apply PhaseFacts.allpass_length.
Qed.

End PhaseMore.

Module VoicesMore.
Import Voices.

Lemma fill_inner_fold (i j : nat) (inner : list json) (t : Styles.tensor) :
  fill_inner i j inner t = fold_left (inner_step i j) (enumerate inner) (Some t).
Proof. reflexivity. Qed.

Lemma fill_middle_fold (i : nat) (middle : list json) (t : Styles.tensor) :
  fill_middle i middle t = fold_left (middle_step i) (enumerate middle) (Some t).
Proof. reflexivity. Qed.

Lemma fill_tensor_fold (outer : list json) :
  fill_tensor outer = fold_left outer_step (enumerate outer) (Some zero_tensor).
Proof. reflexivity. Qed.

Lemma load_voices_fold {E} (obj : list (string * json)) (styles : Styles.style_table) :
  load_voices (E := E) (Ok (JObject obj)) styles = fold_left voice_step obj (Some styles).
Proof. reflexivity. Qed.

Local Abbreviation row_ok := (fun r : list Q => length r = 256).
Local Abbreviation middle_ok := (fun m : list (list Q) => length m = 1 /\ Forall row_ok m).

Lemma shaped_spec (t : Styles.tensor) :
  shaped t = true <-> length t = 511 /\ Forall middle_ok t.
Proof.
  unfold shaped. rewrite andb_true_iff, Nat.eqb_eq, forallb_forall, List.Forall_forall.
  apply and_iff_compat_l. split; intros H m Hm; specialize (H m Hm).
  - rewrite andb_true_iff, Nat.eqb_eq, forallb_forall in H. destruct H as [H1 H2].
    split; [exact H1|]. apply List.Forall_forall. intros r Hr. apply Nat.eqb_eq, H2, Hr.
  - destruct H as [H1 H2]. rewrite andb_true_iff, Nat.eqb_eq, forallb_forall. split; [exact H1|].
    intros r Hr. apply Nat.eqb_eq. rewrite List.Forall_forall in H2. apply H2, Hr.
Qed.

(** On a shaped tensor, [tensor[i][j][k] = x] panics exactly outside
    511 x 1 x 256, and keeps the shape otherwise. *)
Lemma tensor_set_shaped (t : Styles.tensor) (i j k : nat) (x : Q) :
  shaped t = true ->
  (tensor_set t i j k x = None <-> ~ (i < 511 /\ j < 1 /\ k < 256)) /\
  (forall t', tensor_set t i j k x = Some t' -> shaped t' = true).
Proof.
  rewrite !shaped_spec. intros [Hlen Hall]. unfold tensor_set.
  destruct (t !! i) as [m|] eqn:Hi.
  - pose proof (lookup_lt_Some _ _ _ Hi) as Hil.
    pose proof (Forall_lookup_1 _ _ _ _ Hall Hi) as [Hm Hrows].
    destruct (m !! j) as [row|] eqn:Hj.
    + pose proof (lookup_lt_Some _ _ _ Hj) as Hjl.
      pose proof (Forall_lookup_1 _ _ _ _ Hrows Hj) as Hrow. cbn beta in Hrow.
      destruct (Nat.ltb k (length row)) eqn:Hk.
      * apply Nat.ltb_lt in Hk. split; [split; [discriminate|lia]|].
        intros t' Ht'. injection Ht' as <-. apply shaped_spec. unfold Styles.tensor. rewrite length_insert. split; [exact Hlen|].
        apply Forall_insert; [exact Hall|]. rewrite length_insert. split; [exact Hm|].
        apply Forall_insert; [exact Hrows|]. cbn beta. rewrite length_insert. exact Hrow.
      * apply Nat.ltb_ge in Hk. split; [split; [intros _; lia|reflexivity]|discriminate].
    + apply lookup_ge_None in Hj. split; [split; [intros _; lia|reflexivity]|discriminate].
  - apply lookup_ge_None in Hi. split; [split; [intros _; lia|reflexivity]|discriminate].
Qed.

(** A loop over [enumerate l] whose body fails or keeps an invariant [P]:
    it fails exactly when the body fails at some index. *)
Section FoldEnum.
Context {A : Type} (P : Styles.tensor -> Prop) (step : option Styles.tensor -> nat * A -> option Styles.tensor)
        (bad : nat -> A -> Prop).
Hypothesis step_none : forall p, step None p = None.
Hypothesis step_bad : forall n a t, P t -> step (Some t) (n, a) = None <-> bad n a.
Hypothesis step_keep : forall n a t t', P t -> step (Some t) (n, a) = Some t' -> P t'.

Lemma fold_step_none (l : list (nat * A)) : fold_left step l None = None.
Proof. induction l as [|p l IH]; cbn [fold_left]; [reflexivity|]. rewrite step_none. exact IH. Qed.

Lemma fold_enum (l : list A) (s : nat) (t : Styles.tensor) :
  P t ->
  (fold_left step (combine (seq s (length l)) l) (Some t) = None <->
   exists n a, nth_error l n = Some a /\ bad (s + n) a) /\
  (forall t', fold_left step (combine (seq s (length l)) l) (Some t) = Some t' -> P t').
Proof.
  revert s t. induction l as [|a l IH]; intros s t Ht.
  - cbn [length seq combine fold_left]. split.
    + split; [discriminate|]. intros [n [a [Hn _]]]. destruct n; discriminate.
    + intros t' H. injection H as <-. exact Ht.
  - cbn [length seq combine fold_left].
    destruct (step (Some t) (s, a)) as [t1|] eqn:Hs.
    + pose proof (step_keep _ _ _ _ Ht Hs) as Ht1.
      destruct (IH (S s) t1 Ht1) as [IH1 IH2]. split; [|exact IH2].
      rewrite IH1. split.
      * intros [n [b [Hn Hb]]]. exists (S n), b. split; [exact Hn|].
        replace (s + S n) with (S s + n) by lia. exact Hb.
      * intros [n [b [Hn Hb]]]. destruct n as [|n].
        -- injection Hn as <-. rewrite Nat.add_0_r in Hb.
           apply (step_bad _ _ _ Ht) in Hb. congruence.
        -- exists n, b. split; [exact Hn|]. replace (S s + n) with (s + S n) by lia. exact Hb.
    + rewrite fold_step_none. split.
      * split; [intros _|reflexivity]. exists 0, a. split; [reflexivity|].
        rewrite Nat.add_0_r. apply (step_bad _ _ _ Ht). exact Hs.
      * discriminate.
Qed.

End FoldEnum.

Lemma fill_inner_shaped (i j : nat) (inner : list json) (t : Styles.tensor) :
  shaped t = true ->
  (fill_inner i j inner t = None <->
   exists k x, nth_error inner k = Some x /\ as_f64 x <> None /\ ~ (i < 511 /\ j < 1 /\ k < 256)) /\
  (forall t', fill_inner i j inner t = Some t' -> shaped t' = true).
Proof.
  intros Ht. rewrite fill_inner_fold. unfold enumerate.
  apply (fold_enum (fun t => shaped t = true) (inner_step i j)
           (fun k x => as_f64 x <> None /\ ~ (i < 511 /\ j < 1 /\ k < 256))); [| | |exact Ht].
  - intros [k x]. reflexivity.
  - intros k x t0 H0. cbn [inner_step]. destruct (as_f64 x) as [num|].
    + rewrite (proj1 (tensor_set_shaped t0 i j k num H0)). split; [intros H; split; [discriminate|exact H]|tauto].
    + split; [discriminate|]. intros [H _]. congruence.
  - intros k x t0 t' H0. cbn [inner_step]. destruct (as_f64 x) as [num|].
    + apply (proj2 (tensor_set_shaped t0 i j k num H0)).
    + intros H. injection H as <-. exact H0.
Qed.

Lemma fill_middle_shaped (i : nat) (middle : list json) (t : Styles.tensor) :
  shaped t = true ->
  (fill_middle i middle t = None <->
   exists j w, nth_error middle j = Some w /\
   exists inner, as_array w = Some inner /\
   exists k x, nth_error inner k = Some x /\ as_f64 x <> None /\ ~ (i < 511 /\ j < 1 /\ k < 256)) /\
  (forall t', fill_middle i middle t = Some t' -> shaped t' = true).
Proof.
  intros Ht. rewrite fill_middle_fold. unfold enumerate.
  apply (fold_enum (fun t => shaped t = true) (middle_step i)
           (fun j w => exists inner, as_array w = Some inner /\
              exists k x, nth_error inner k = Some x /\ as_f64 x <> None /\ ~ (i < 511 /\ j < 1 /\ k < 256)));
    [| | |exact Ht].
  - intros [j w]. reflexivity.
  - intros j w t0 H0. cbn [middle_step]. destruct (as_array w) as [inner|].
    + rewrite (proj1 (fill_inner_shaped i j inner t0 H0)). split.
      * intros H. exists inner. split; [reflexivity|exact H].
      * intros [inner' [Hw H]]. injection Hw as <-. exact H.
    + split; [discriminate|]. intros [inner [H _]]. discriminate.
  - intros j w t0 t' H0. cbn [middle_step]. destruct (as_array w) as [inner|].
    + apply (proj2 (fill_inner_shaped i j inner t0 H0)).
    + intros H. injection H as <-. exact H0.
Qed.

Lemma zero_tensor_shaped : shaped zero_tensor = true.
Proof. vm_compute. reflexivity. Qed.

Lemma fill_tensor_shaped (outer : list json) :
  (fill_tensor outer = None <->
   exists i v, nth_error outer i = Some v /\
   exists middle, as_array v = Some middle /\
   exists j w, nth_error middle j = Some w /\
   exists inner, as_array w = Some inner /\
   exists k x, nth_error inner k = Some x /\ as_f64 x <> None /\ ~ (i < 511 /\ j < 1 /\ k < 256)) /\
  (forall t', fill_tensor outer = Some t' -> shaped t' = true).
Proof.
  rewrite fill_tensor_fold. unfold enumerate.
  apply (fold_enum (fun t => shaped t = true) outer_step
           (fun i v => exists middle, as_array v = Some middle /\
              exists j w, nth_error middle j = Some w /\
              exists inner, as_array w = Some inner /\
              exists k x, nth_error inner k = Some x /\ as_f64 x <> None /\ ~ (i < 511 /\ j < 1 /\ k < 256)));
    [| | |exact zero_tensor_shaped].
  - intros [i v]. reflexivity.
  - intros i v t0 H0. cbn [outer_step]. destruct (as_array v) as [middle|].
    + rewrite (proj1 (fill_middle_shaped i middle t0 H0)). split.
      * intros H. exists middle. split; [reflexivity|exact H].
      * intros [middle' [Hv H]]. injection Hv as <-. exact H.
    + split; [discriminate|]. intros [middle [H _]]. discriminate.
  - intros i v t0 t' H0. cbn [outer_step]. destruct (as_array v) as [middle|].
    + apply (proj2 (fill_middle_shaped i middle t0 H0)).
    + intros H. injection H as <-. exact H0.
Qed.

Lemma fill_inner_enc (i j s : nat) (r : list Q) (t : Styles.tensor) (m : list (list Q)) (row : list Q) :
  t !! i = Some m -> m !! j = Some row -> s + length r = length row ->
  fold_left (inner_step i j) (combine (seq s (length r)) (map JNumber r)) (Some t) =
  Some (<[i := <[j := take s row ++ r]> m]> t).
Proof.
  unfold Styles.tensor in *. revert s t m row.
  induction r as [|x r IH]; intros s t m row Hi Hj Hs.
  - cbn [length seq map combine fold_left]. rewrite app_nil_r, take_ge by (simpl in Hs; lia).
    rewrite (list_insert_id m j row Hj), (list_insert_id t i m Hi). reflexivity.
  - cbn [length seq map combine fold_left]. cbn [length] in Hs.
    assert (Hset : inner_step i j (Some t) (s, JNumber x) =
                   Some (<[i := <[j := <[s := x]> row]> m]> t)).
    { cbn [inner_step as_f64]. unfold tensor_set, Styles.tensor. rewrite Hi, Hj.
      replace (Nat.ltb s (length row)) with true by (symmetry; apply Nat.ltb_lt; lia). reflexivity. }
    rewrite Hset.
    pose proof (lookup_lt_Some _ _ _ Hi) as Hil. pose proof (lookup_lt_Some _ _ _ Hj) as Hjl.
    rewrite (IH (S s) _ (<[j := <[s := x]> row]> m) (<[s := x]> row)).
    + rewrite list_insert_insert_eq, list_insert_insert_eq.
      rewrite (take_S_r (<[s:=x]> row) s x) by (apply list_lookup_insert_eq; lia).
      rewrite take_insert_ge by lia. rewrite <- app_assoc. reflexivity.
    + apply list_lookup_insert_eq. exact Hil.
    + apply list_lookup_insert_eq. exact Hjl.
    + rewrite length_insert. lia.
Qed.

Lemma fill_middle_enc (i s : nat) (ms : list (list Q)) (t : Styles.tensor) (m : list (list Q)) :
  t !! i = Some m -> s + length ms = length m -> Forall row_ok m -> Forall row_ok ms ->
  fold_left (middle_step i) (combine (seq s (length ms)) (map (fun r => JArray (map JNumber r)) ms)) (Some t) =
  Some (<[i := take s m ++ ms]> t).
Proof.
  unfold Styles.tensor in *. revert s t m.
  induction ms as [|r ms IH]; intros s t m Hi Hs Hm Hms.
  - cbn [length seq map combine fold_left]. rewrite app_nil_r, take_ge by (simpl in Hs; lia).
    rewrite (list_insert_id t i m Hi). reflexivity.
  - cbn [length seq map combine fold_left]. cbn [length] in Hs.
    inversion Hms as [|? ? Hr Hms']; subst.
    pose proof (lookup_lt_Some _ _ _ Hi) as Hil.
    destruct (lookup_lt_is_Some_2 m s ltac:(lia)) as [row Hrow].
    assert (Hstep : middle_step i (Some t) (s, JArray (map JNumber r)) =
                    Some (<[i := <[s := r]> m]> t)).
    { cbn [middle_step as_array]. rewrite fill_inner_fold. unfold enumerate. rewrite length_map.
      rewrite (fill_inner_enc i s 0 r t m row Hi Hrow).
      - reflexivity.
      - rewrite (Forall_lookup_1 _ _ _ _ Hm Hrow). exact Hr. }
    rewrite Hstep.
    rewrite (IH (S s) _ (<[s := r]> m)).
    + rewrite list_insert_insert_eq.
      rewrite (take_S_r (<[s:=r]> m) s r) by (apply list_lookup_insert_eq; lia).
      rewrite take_insert_ge by lia. rewrite <- app_assoc. reflexivity.
    + apply list_lookup_insert_eq. exact Hil.
    + rewrite length_insert. lia.
    + apply Forall_insert; assumption.
    + exact Hms'.
Qed.

Lemma fill_outer_enc (s : nat) (ts t : Styles.tensor) :
  s + length ts = length t -> Forall middle_ok t -> Forall middle_ok ts ->
  fold_left outer_step (combine (seq s (length ts)) (encode_tensor ts)) (Some t) = Some (take s t ++ ts).
Proof.
  unfold Styles.tensor in *. revert s t.
  induction ts as [|m0 ts IH]; intros s t Hs Ht Hts.
  - cbn [length seq combine fold_left]. rewrite app_nil_r, take_ge by (simpl in Hs; lia). reflexivity.
  - unfold encode_tensor. cbn [length seq map combine fold_left]. cbn [length] in Hs.
    fold (encode_tensor ts).
    inversion Hts as [|? ? [Hm0 Hr0] Hts']; subst.
    destruct (lookup_lt_is_Some_2 t s ltac:(lia)) as [m Hm].
    pose proof (Forall_lookup_1 _ _ _ _ Ht Hm) as [Hml Hmr].
    assert (Hstep : outer_step (Some t) (s, JArray (map (fun r => JArray (map JNumber r)) m0)) =
                    Some (<[s := m0]> t)).
    { cbn [outer_step as_array]. rewrite fill_middle_fold. unfold enumerate. rewrite length_map.
      rewrite (fill_middle_enc s 0 m0 t m Hm) by (try lia; assumption). reflexivity. }
    rewrite Hstep, IH.
    + rewrite (take_S_r (<[s:=m0]> t) s m0) by (apply list_lookup_insert_eq; lia).
      rewrite take_insert_ge by lia. rewrite <- app_assoc. reflexivity.
    + rewrite length_insert. lia.
    + apply Forall_insert; [exact Ht|split; assumption].
    + exact Hts'.
Qed.

Lemma fill_tensor_encode (t : Styles.tensor) :
  shaped t = true -> fill_tensor (encode_tensor t) = Some t.
Proof.
  intros Ht. apply shaped_spec in Ht as [Hlen Hall].
  rewrite fill_tensor_fold. unfold enumerate.
  pose proof zero_tensor_shaped as Hz. apply shaped_spec in Hz as [Hzl Hza].
  unfold encode_tensor at 1. rewrite length_map. fold (encode_tensor t).
  rewrite (fill_outer_enc 0 t zero_tensor) by (try lia; assumption). reflexivity.
Qed.

Lemma fill_tensor_none (outer : list json) :
  fill_tensor outer = None <->
  exists i m j inner k x, nth_error outer i = Some (JArray m) /\ nth_error m j = Some (JArray inner) /\
    nth_error inner k = Some (JNumber x) /\ (511 <= i \/ 1 <= j \/ 256 <= k).
Proof.
  rewrite (proj1 (fill_tensor_shaped outer)). split.
  - intros [i [v [Hv [m [Hm [j [w [Hw [inner [Hinner [k [x [Hx [Hnum Hout]]]]]]]]]]]]]].
    destruct v; try discriminate. injection Hm as ->.
    destruct w; try discriminate. injection Hinner as ->.
    destruct x as [| |q| | |]; try (contradiction Hnum; reflexivity).
    exists i, m, j, inner, k, q. repeat split; try assumption. lia.
  - intros [i [m [j [inner [k [x [Hi [Hj [Hk Hout]]]]]]]]].
    exists i, (JArray m). split; [exact Hi|]. exists m. split; [reflexivity|].
    exists j, (JArray inner). split; [exact Hj|]. exists inner. split; [reflexivity|].
    exists k, (JNumber x). split; [exact Hk|]. split; [discriminate|lia].
Qed.

Lemma voice_fold_none (obj : list (string * json)) : fold_left voice_step obj None = None.
Proof. induction obj as [|[k v] obj IH]; [reflexivity|]. exact IH. Qed.

Lemma voice_fold_panic (obj : list (string * json)) (styles : Styles.style_table) :
  fold_left voice_step obj (Some styles) = None <->
  exists key outer, In (key, JArray outer) obj /\ fill_tensor outer = None.
Proof.
  revert styles. induction obj as [|[key v] obj IH]; intros styles; cbn [fold_left].
  - split; [discriminate|]. intros [key [outer [[] _]]].
  - cbn [voice_step]. destruct (as_array v) as [outer|] eqn:Hv.
    + destruct v; try discriminate. injection Hv as ->.
      destruct (fill_tensor outer) as [t|] eqn:Hf.
      * rewrite IH. split.
        -- intros [key' [outer' [Hin Hf']]]. exists key', outer'. split; [right; exact Hin|exact Hf'].
        -- intros [key' [outer' [[Heq|Hin] Hf']]].
           ++ injection Heq as Hk Ho; subst. congruence.
           ++ exists key', outer'. split; assumption.
      * rewrite voice_fold_none. split; [intros _|reflexivity].
        exists key, outer. split; [left; reflexivity|exact Hf].
    + rewrite IH. split.
      * intros [key' [outer' [Hin Hf']]]. exists key', outer'. split; [right; exact Hin|exact Hf'].
      * intros [key' [outer' [[Heq|Hin] Hf']]].
        -- injection Heq as Hk Ho; subst. discriminate.
        -- exists key', outer'. split; assumption.
Qed.

Lemma voice_fold_some (obj : list (string * json)) (styles table : Styles.style_table) :
  fold_left voice_step obj (Some styles) = Some table ->
  (map_Forall (fun _ t => shaped t = true) styles -> map_Forall (fun _ t => shaped t = true) table) /\
  (forall key, is_Some (table !! key) <->
               is_Some (styles !! key) \/ exists outer, In (key, JArray outer) obj).
Proof.
  revert styles. induction obj as [|[key v] obj IH]; intros styles; cbn [fold_left].
  - intros H. injection H as <-. split; [tauto|]. intros key. split; [tauto|].
    intros [H|[outer []]]. exact H.
  - cbn [voice_step]. destruct (as_array v) as [outer|] eqn:Hv.
    + destruct v; try discriminate. injection Hv as ->.
      destruct (fill_tensor outer) as [t|] eqn:Hf.
      * intros H. destruct (IH _ H) as [IH1 IH2]. split.
        -- intros Hs. apply IH1. apply map_Forall_insert_2; [|exact Hs].
           exact (proj2 (fill_tensor_shaped outer) t Hf).
        -- intros key'. rewrite IH2, lookup_insert_is_Some. split.
           ++ intros [[Heq|[_ Hs]]|[outer' Hin]].
              ** subst key'. right. exists outer. left. reflexivity.
              ** left. exact Hs.
              ** right. exists outer'. right. exact Hin.
           ++ intros [Hs|[outer' [Heq|Hin]]].
              ** destruct (decide (key = key')) as [Heq|Hne]; [left; left; exact Heq|].
                 left. right. split; assumption.
              ** injection Heq as Hk _. left. left. exact Hk.
              ** right. exists outer'. exact Hin.
      * rewrite voice_fold_none. discriminate.
    + intros H. destruct (IH _ H) as [IH1 IH2]. split; [exact IH1|].
      intros key'. rewrite IH2. split.
      * intros [Hs|[outer' Hin]]; [left; exact Hs|right; exists outer'; right; exact Hin].
      * intros [Hs|[outer' [Heq|Hin]]].
        -- left. exact Hs.
        -- injection Heq as _ Hv'. subst v. discriminate.
        -- right. exists outer'. exact Hin.
Qed.

(** [TTSKoko::new] on a voices object whose values are the JSON arrays of
    511 x 1 x 256 tensors stores exactly those tensors, a repeated name
    keeping its last tensor. *)
Lemma load_voices_round_trip {E} (l : list (string * Styles.tensor)) :
  forallb (fun kt => shaped (snd kt)) l = true ->
  new_styles (E := E) (Ok (JObject (map (fun kt => (fst kt, JArray (encode_tensor (snd kt)))) l))) =
  Some (list_to_map (rev l) : Styles.style_table).
Proof.
  intros H. unfold new_styles. rewrite load_voices_fold.
  induction l as [|[key t] l IH] using rev_ind; [reflexivity|].
  rewrite forallb_app in H. apply andb_true_iff in H as [Hl Ht].
  cbn [forallb snd] in Ht. rewrite andb_true_r in Ht.
  rewrite map_app, fold_left_app, (IH Hl). cbn [map fold_left fst snd voice_step as_array].
  rewrite (fill_tensor_encode t Ht), rev_app_distr. reflexivity.
Qed.

(** [load_voices] panics (an index out of bounds) exactly when some
    value of the voices object holds a number at a position outside
    511 x 1 x 256. *)
Lemma load_voices_panics {E} (obj : list (string * json)) :
  new_styles (E := E) (Ok (JObject obj)) = None <->
  exists key outer i m j inner k x,
    In (key, JArray outer) obj /\ nth_error outer i = Some (JArray m) /\
    nth_error m j = Some (JArray inner) /\ nth_error inner k = Some (JNumber x) /\
    (511 <= i \/ 1 <= j \/ 256 <= k).
Proof.
  unfold new_styles. rewrite load_voices_fold, voice_fold_panic. split.
  - intros [key [outer [Hin Hf]]]. apply fill_tensor_none in Hf.
    destruct Hf as [i [m [j [inner [k [x H]]]]]]. exists key, outer, i, m, j, inner, k, x. tauto.
  - intros [key [outer [i [m [j [inner [k [x [Hin H]]]]]]]]]. exists key, outer.
    split; [exact Hin|]. apply fill_tensor_none. exists i, m, j, inner, k, x. exact H.
Qed.

(** Every tensor [TTSKoko::new] stores has the 511 x 1 x 256 shape. *)
Lemma load_voices_shaped {E} (loaded : result json E) :
  match new_styles loaded with
  | Some table => map_Forall (fun _ t => shaped t = true) table
  | None => True
  end.
Proof.
  unfold new_styles. destruct loaded as [v|e]; [|apply map_Forall_empty].
  destruct v as [| | | | |obj]; try apply map_Forall_empty.
  rewrite load_voices_fold.
  destruct (fold_left voice_step obj (Some ∅)) as [table|] eqn:H; [|exact I].
  apply (proj1 (voice_fold_some obj ∅ table H)). apply map_Forall_empty.
Qed.

(** The names [TTSKoko::new] loads are exactly the keys of the voices
    object whose value is an array. *)
Lemma load_voices_keys {E} (obj : list (string * json)) :
  match new_styles (E := E) (Ok (JObject obj)) with
  | Some table => forall key, is_Some (table !! key) <-> exists outer, In (key, JArray outer) obj
  | None => True
  end.
Proof.
  unfold new_styles. rewrite load_voices_fold.
  destruct (fold_left voice_step obj (Some ∅)) as [table|] eqn:H; [|exact I].
  intros key. rewrite (proj2 (voice_fold_some obj ∅ table H) key), lookup_empty.
  split; [intros [[? Hn]|Hr]; [discriminate|exact Hr]|right; assumption].
Qed.

Lemma load_voices_round_trip_witness :
  forallb (fun kt => shaped (snd kt))
    [("af", <[3 := [<[7 := 1%Q]> Styles.zeros]]> zero_tensor); ("bf", zero_tensor)] = true /\
  new_styles (E := unit)
    (Ok (JObject (map (fun kt => (fst kt, JArray (encode_tensor (snd kt))))
                      [("af", <[3 := [<[7 := 1%Q]> Styles.zeros]]> zero_tensor); ("bf", zero_tensor)]))) =
  Some (list_to_map (rev [("af", <[3 := [<[7 := 1%Q]> Styles.zeros]]> zero_tensor); ("bf", zero_tensor)])
        : Styles.style_table).
Proof.
  assert (H : forallb (fun kt => shaped (snd kt))
                [("af", <[3 := [<[7 := 1%Q]> Styles.zeros]]> zero_tensor); ("bf", zero_tensor)] = true).
  { vm_compute. reflexivity. }
  split; [exact H|]. exact (load_voices_round_trip _ H).
Defined.

End VoicesMore.

Module StylesMore.
Import Voices.

Lemma style_row_length (t : Styles.tensor) :
  shaped t = true -> length (Styles.style_row t) = 256.
Proof.
  intros Ht. apply VoicesMore.shaped_spec in Ht as [Hlen Hall].
  destruct t as [|m t]; [discriminate|]. inversion Hall as [|? ? [Hm Hrows] _]; subst.
  destruct m as [|r m]; [discriminate|]. inversion Hrows as [|? ? Hr _]; subst.
  exact Hr.
Qed.

Lemma blend_fold_length (styles : Styles.style_table) (l : list (string * Q)) (acc : list Q) :
  length acc = 256 -> length (fold_left (Styles.blend_step styles) l acc) = 256.
Proof.
  revert acc. induction l as [|[name p] l IH]; intros acc H; cbn [fold_left]; [exact H|].
  apply IH. cbn [Styles.blend_step]. destruct (styles !! name); [|exact H].
  apply StyleFacts.blend_into_length. exact H.
Qed.

(** After [TTSKoko::new], every style [mix_styles] returns is one vector
    of 256 values, for a single name as for a blend. *)
Lemma new_styles_mix_width {E} (loaded : result json E) (parse_f32 : string -> option Q)
    (style_name : string) :
  match new_styles loaded with
  | Some table =>
      match Styles.mix_styles parse_f32 table style_name with
      | Ok styles => exists v, styles = [v] /\ length v = 256
      | Err _ => True
      end
  | None => True
  end.
Proof.
  destruct (new_styles loaded) as [table|] eqn:Hn; [|exact I].
  assert (Hsh : map_Forall (fun _ t => shaped t = true) table).
  { unfold new_styles in Hn. destruct loaded as [v|e]; [|injection Hn as <-; apply map_Forall_empty].
    destruct v as [| | | | |obj]; try (injection Hn as <-; apply map_Forall_empty).
    rewrite VoicesMore.load_voices_fold in Hn.
    apply (proj1 (VoicesMore.voice_fold_some obj ∅ table Hn)). apply map_Forall_empty. }
  unfold Styles.mix_styles.
  destruct (negb (Str.contains "+" style_name)).
  - destruct (table !! style_name) as [style|] eqn:Hs; [|exact I].
    exists (Styles.style_row style). split; [reflexivity|].
    apply style_row_length. exact (Hsh _ _ Hs).
  - destruct (fold_left _ _ _) as [names portions].
    eexists. split; [reflexivity|]. apply blend_fold_length. reflexivity.
Qed.

End StylesMore.

Module MainFileFacts.
Import MainFile.

Lemma prefix_app (p s : string) : String.prefix p s = true <-> exists r, s = String.append p r.
Proof.
  revert s. induction p as [|c p IH]; intros s.
  - replace (String.prefix "" s) with true by (destruct s; reflexivity).
    split; [intros _; exists s; reflexivity|reflexivity].
  - destruct s as [|d s].
    + split; [discriminate|]. intros [r Hr]. discriminate.
    + cbn [String.prefix String.append]. destruct (ascii_dec c d) as [<-|Hne].
      * rewrite IH. split; intros [r Hr]; exists r; [subst s; reflexivity|injection Hr as Hr; exact Hr].
      * split; [discriminate|]. intros [r Hr]. injection Hr as <- _. contradiction.
Qed.

Lemma string_length_append (a b : string) :
  String.length (String.append a b) = String.length a + String.length b.
Proof. induction a as [|c a IH]; simpl; [reflexivity|]. rewrite IH. reflexivity. Qed.

Lemma prefix_length (p s : string) : String.prefix p s = true -> String.length p <= String.length s.
Proof.
  intros H. apply prefix_app in H as [r ->]. rewrite string_length_append. lia.
Qed.

Lemma replace_no_match (pat to s : string) :
  (forall a b, s <> String.append a (String.append pat b)) -> replace_from pat to 0 s = s.
Proof.
  induction s as [|c s IH]; intros H; [reflexivity|]. cbn [replace_from].
  destruct (String.prefix pat (String c s)) eqn:Hp.
  - apply prefix_app in Hp as [r Hr]. exfalso. apply (H EmptyString r). exact Hr.
  - rewrite IH; [reflexivity|]. intros a b Hs. apply (H (String c a) b). rewrite Hs. reflexivity.
Qed.

Lemma replace_length (pat to : string) :
  pat <> EmptyString ->
  forall s skip,
    String.length (replace_from pat to skip s) + Nat.min skip (String.length s) +
    matches_from pat skip s * String.length pat =
    String.length s + matches_from pat skip s * String.length to.
Proof.
  intros Hpat s. assert (Hp1 : 1 <= String.length pat) by (destruct pat; [contradiction|simpl; lia]).
  induction s as [|c s IH]; intros skip; cbn [replace_from matches_from String.length].
  - rewrite Nat.min_0_r. lia.
  - destruct skip as [|k].
    + destruct (String.prefix pat (String c s)) eqn:Hpre.
      * apply prefix_length in Hpre. cbn [String.length] in Hpre.
        specialize (IH (String.length pat - 1)). rewrite string_length_append.
        rewrite Nat.min_l in IH by lia. cbn [Nat.min]. nia.
      * specialize (IH 0). cbn [Nat.min String.length] in *. lia.
    + specialize (IH k). cbn [Nat.min]. lia.
Qed.

Lemma append_eq_length (a b r r' : string) :
  String.length a = String.length b -> String.append a r = String.append b r' -> a = b.
Proof.
  revert b. induction a as [|c a IH]; intros [|d b] Hl He; simpl in *; try lia; [reflexivity|].
  injection He as <- He. f_equal. apply IH; [lia|exact He].
Qed.

Lemma replace_same_length (pat to1 to2 : string) :
  String.length to1 = String.length to2 ->
  forall s skip, replace_from pat to1 skip s = replace_from pat to2 skip s ->
  matches_from pat skip s = 0 \/ to1 = to2.
Proof.
  intros Hl s. induction s as [|c s IH]; intros skip H; cbn [replace_from matches_from] in *; [left; reflexivity|].
  destruct skip as [|k].
  - destruct (String.prefix pat (String c s)).
    + right. exact (append_eq_length _ _ _ _ Hl H).
    + injection H as H. exact (IH 0 H).
  - exact (IH k H).
Qed.

Lemma matches_occurrence (pat : string) :
  pat <> EmptyString ->
  forall a b skip, skip <= String.length a ->
  0 < matches_from pat skip (String.append a (String.append pat b)).
Proof.
  intros Hpat a. induction a as [|c a IH]; intros b skip Hs; cbn [String.length] in Hs.
  - assert (skip = 0) as -> by lia. destruct pat as [|d p]; [contradiction|].
    assert (Hpre : String.prefix (String d p) (String d (String.append p b)) = true)
      by (apply prefix_app; exists b; reflexivity).
    change (0 < matches_from (String d p) 0 (String d (String.append p b))).
    cbn [matches_from]. rewrite Hpre. apply Nat.lt_0_succ.
  - change (0 < matches_from pat skip (String c (String.append a (String.append pat b)))).
    destruct skip as [|k]; cbn [matches_from].
    + destruct (String.prefix pat (String c (String.append a (String.append pat b)))).
      * apply Nat.lt_0_succ.
      * apply IH. lia.
    + apply IH. lia.
Qed.

Lemma to_string_inj (i j : nat) : to_string i = to_string j -> i = j.
Proof.
  unfold to_string. intros H. apply (f_equal NilEmpty.uint_of_string) in H.
  rewrite !NilEmpty.usu in H. injection H as H. apply DecimalNat.Unsigned.to_uint_inj. exact H.
Qed.

(** With a ["{line}"] in the format, distinct indices give distinct paths. *)
Lemma replace_line_inj (fmt : string) (i j : nat) :
  (exists a b, fmt = String.append a (String.append "{line}" b)) ->
  replace fmt "{line}" (to_string i) = replace fmt "{line}" (to_string j) -> i = j.
Proof.
  intros [a [b Hf]] H. unfold replace in H.
  assert (Hne : "{line}" <> EmptyString) by discriminate.
  assert (Hm : 0 < matches_from "{line}" 0 fmt) by (rewrite Hf; apply matches_occurrence; [exact Hne|lia]).
  pose proof (replace_length _ (to_string i) Hne fmt 0) as Li.
  pose proof (replace_length _ (to_string j) Hne fmt 0) as Lj.
  rewrite H in Li.
  assert (Hl : String.length (to_string i) = String.length (to_string j)).
  { apply (Nat.mul_cancel_l _ _ (matches_from "{line}" 0 fmt)); [lia|]. rewrite (Nat.mul_comm _ (String.length (to_string i))), (Nat.mul_comm _ (String.length (to_string j))). lia. }
  destruct (replace_same_length _ _ _ Hl fmt 0 H) as [H0|Heq]; [lia|].
  apply to_string_inj. exact Heq.
Qed.

Section Loop.
Context {E : Type} (tts_call : string -> string -> result unit E) (fmt : string).

Lemma planned_calls_cons (i : nat) (l : string) (ls : list string) :
  planned_calls fmt i (l :: ls) =
  if Str.is_empty (Str.trim l) then planned_calls fmt (S i) ls
  else (Str.trim l, replace fmt "{line}" (to_string i)) :: planned_calls fmt (S i) ls.
Proof.
  unfold planned_calls. cbn [length seq combine List.filter fst snd].
  destruct (Str.is_empty (Str.trim l)); reflexivity.
Qed.

Local Abbreviation call_ok := (fun c : string * string => exists u, tts_call (fst c) (snd c) = Ok u).

Lemma file_loop_spec (i : nat) (ls : list string) :
  let '(calls, r) := file_loop tts_call fmt i ls in
  match r with
  | Ok _ => calls = planned_calls fmt i ls /\ Forall call_ok calls
  | Err e => exists pre t p, calls = pre ++ [(t, p)] /\ tts_call t p = Err e /\ Forall call_ok pre /\
             exists m, calls = firstn m (planned_calls fmt i ls)
  end.
Proof.
  revert i. induction ls as [|l ls IH]; intros i; cbn [file_loop].
  - split; [reflexivity|constructor].
  - rewrite planned_calls_cons. destruct (Str.is_empty (Str.trim l)); [apply IH|].
    destruct (tts_call (Str.trim l) (replace fmt "{line}" (to_string i))) as [u|e] eqn:Hc.
    + specialize (IH (S i)). destruct (file_loop tts_call fmt (S i) ls) as [calls r].
      destruct r as [v|e].
      * destruct IH as [-> Hok]. split; [reflexivity|]. constructor; [exists u; exact Hc|exact Hok].
      * destruct IH as [pre [t [p [-> [Ht [Hpre [m Hm]]]]]]].
        exists ((Str.trim l, replace fmt "{line}" (to_string i)) :: pre), t, p.
        split; [reflexivity|]. split; [exact Ht|]. split; [constructor; [exists u; exact Hc|exact Hpre]|].
        exists (S m). cbn [firstn]. rewrite <- Hm. reflexivity.
    + exists [], (Str.trim l), (replace fmt "{line}" (to_string i)).
      split; [reflexivity|]. split; [exact Hc|]. split; [constructor|]. exists 1. reflexivity.
Qed.

Lemma planned_calls_indices (i : nat) (ls : list string) :
  exists ns, NoDup ns /\ Forall (fun n => i <= n) ns /\
  map snd (planned_calls fmt i ls) = map (fun n => replace fmt "{line}" (to_string n)) ns.
Proof.
  revert i. induction ls as [|l ls IH]; intros i.
  - exists []. split; [constructor|]. split; [constructor|reflexivity].
  - rewrite planned_calls_cons. destruct (IH (S i)) as [ns [Hnd [Hge Hmap]]].
    destruct (Str.is_empty (Str.trim l)).
    + exists ns. split; [exact Hnd|]. split; [|exact Hmap].
      apply List.Forall_forall. intros n Hn. rewrite List.Forall_forall in Hge. specialize (Hge n Hn). lia.
    + exists (i :: ns). split; [|split].
      * constructor; [|exact Hnd]. intros Hin. rewrite list_elem_of_In in Hin.
        rewrite List.Forall_forall in Hge. specialize (Hge i Hin). lia.
      * constructor; [lia|]. apply List.Forall_forall. intros n Hn.
        rewrite List.Forall_forall in Hge. specialize (Hge n Hn). lia.
      * cbn [map snd]. rewrite Hmap. reflexivity.
Qed.

End Loop.

Lemma map_inj_NoDup {A B} (f : A -> B) (l : list A) :
  (forall x y, f x = f y -> x = y) -> NoDup l -> NoDup (map f l).
Proof.
  intros Hf Hl. induction Hl as [|x l Hx Hl IH]; cbn [map]; constructor; [|exact IH].
  intros Hin. rewrite list_elem_of_In in Hin. apply in_map_iff in Hin as [y [Hy Hin]]. apply Hf in Hy. subst y. apply Hx. rewrite list_elem_of_In. exact Hin.
Qed.

Section Mode.
Context {E : Type} (tts_call : string -> string -> result unit E).

(** [Mode::File] calls [tts] once per non-blank line, in order, with the
    trimmed line and the format whose ["{line}"] is the line's index in the
    file (blank lines count); it stops at the first failing call and
    returns that call's error. *)
Lemma file_mode_calls (file_content save_path_format : string) :
  let '(calls, r) := file_mode tts_call file_content save_path_format in
  match r with
  | Ok _ => calls = planned_calls save_path_format 0 (lines file_content) /\
            Forall (fun c => exists u, tts_call (fst c) (snd c) = Ok u) calls
  | Err e => exists pre t p, calls = pre ++ [(t, p)] /\ tts_call t p = Err e /\
             Forall (fun c => exists u, tts_call (fst c) (snd c) = Ok u) pre /\
             exists m, calls = firstn m (planned_calls save_path_format 0 (lines file_content))
  end.
Proof. apply file_loop_spec. Qed.

Lemma file_mode_prefix (file_content save_path_format : string) :
  exists m, fst (file_mode tts_call file_content save_path_format) =
            firstn m (planned_calls save_path_format 0 (lines file_content)).
Proof.
  pose proof (file_loop_spec tts_call save_path_format 0 (lines file_content)) as H.
  unfold file_mode. destruct (file_loop _ _ _ _) as [calls [u|e]]; cbn [fst].
  - destruct H as [-> _]. exists (length (planned_calls save_path_format 0 (lines file_content))).
    symmetry. apply firstn_all.
  - destruct H as [pre [t [p [_ [_ [_ Hm]]]]]]. exact Hm.
Qed.

(** When the format contains ["{line}"], no two calls of [Mode::File]
    write to the same path. *)
Lemma file_mode_paths_distinct (file_content save_path_format : string) :
  (exists a b, save_path_format = String.append a (String.append "{line}" b)) ->
  NoDup (map snd (fst (file_mode tts_call file_content save_path_format))).
Proof.
  intros Hocc. destruct (file_mode_prefix file_content save_path_format) as [m ->].
  rewrite <- firstn_map.
  destruct (planned_calls_indices save_path_format 0 (lines file_content)) as [ns [Hnd [_ Hmap]]].
  rewrite Hmap. eapply sublist_NoDup; [|apply sublist_take].
  apply map_inj_NoDup; [|exact Hnd].
  intros x y Hxy. exact (replace_line_inj save_path_format x y Hocc Hxy).
Qed.

(** Without ["{line}"] in the format, every call of [Mode::File] writes
    to the format itself. *)
Lemma file_mode_single_path (file_content save_path_format : string) :
  (forall a b, save_path_format <> String.append a (String.append "{line}" b)) ->
  Forall (fun c => snd c = save_path_format) (fst (file_mode tts_call file_content save_path_format)).
Proof.
  intros Hno. destruct (file_mode_prefix file_content save_path_format) as [m ->].
  apply Forall_take. generalize 0. induction (lines file_content) as [|l ls IH]; intros i.
  - constructor.
  - rewrite planned_calls_cons. destruct (Str.is_empty (Str.trim l)); [apply IH|].
    constructor; [|apply IH]. cbn [snd]. unfold replace. apply replace_no_match. exact Hno.
Qed.

End Mode.

Lemma file_mode_paths_distinct_witness :
  (exists a b, "out_{line}.wav" = String.append a (String.append "{line}" b)) /\
  NoDup (map snd (fst (file_mode (E := unit) (fun _ _ => Ok tt)
                         (String.append "hello" (String "010" (String "010" "world"))) "out_{line}.wav"))).
Proof.
  assert (H : exists a b, "out_{line}.wav" = String.append a (String.append "{line}" b))
    by (exists "out_", ".wav"; reflexivity).
  split; [exact H|]. exact (file_mode_paths_distinct _ _ _ H).
Defined.

Lemma file_mode_single_path_witness :
  (forall a b, "out.wav" <> String.append a (String.append "{line}" b)) /\
  Forall (fun c => snd c = "out.wav")
    (fst (file_mode (E := unit) (fun _ _ => Ok tt)
            (String.append "hello" (String "010" (String "010" "world"))) "out.wav")).
Proof.
  assert (H : forall a b, "out.wav" <> String.append a (String.append "{line}" b)).
  { intros a b Heq. apply (f_equal (Str.contains "{")) in Heq.
    rewrite !MixAppend.contains_app in Heq.
    change (Str.contains "{" "{line}") with true in Heq. rewrite orb_true_l, orb_true_r in Heq.
    discriminate. }
  split; [exact H|]. exact (file_mode_single_path _ _ _ H).
Defined.

End MainFileFacts.
